(** * Need A Hand? -- the intake wizard, classifier, ranker and booking

    A shallow embedding of the conversational core of [src/app.ts]:
    the category catalog ([CATEGORY_DEFS]), the keyword classifier
    ([detectCategory]), the wizard component ([AiModalComponent]) with its
    transitions, the worker ranker ([rankWorkers] / [scoreWorker]), the
    booking emitter ([book], [createJobForWorker]) and the job status
    operations of [FirebaseService].

    Modelling conventions.
    - A JavaScript string is a [string]: a sequence of code units, each in
      the range 0..255 and read as Latin-1.  [toLowerCase], [trim] and the
      regular expression class [\W] are written out for that range.
    - A JavaScript [number] that carries a rating or a score is given
      twice.  In [scoreWorker] and [rankWorkers] it is an exact rational
      ([Q]); the weights [3], [2] and [1.2] are [3], [2] and [6/5], and
      nothing is rounded.  In [scoreWorker_double] and
      [rankWorkers_double] it is the IEEE 754 binary64 value JavaScript
      computes with ([float]), every operation rounded.  Counters and
      indices are integers ([Z]).
    - The [answers] object is an association list in property order: a new
      key is appended, an existing key keeps its place (the FAQ identifiers
      used as keys are never integer-like, so property order is insertion
      order).
    - The jobs collection of the document store is a finite map from
      document identifier to [Job]. *)

From stdpp Require Import gmap strings.
From Stdlib Require Import List String Ascii ZArith QArith Qround Lia Bool Sorted Permutation.
From Stdlib Require Import Floats.
From Stdlib Require Uint63.
Import ListNotations.

Local Open Scope string_scope.
Local Open Scope Z_scope.

(** ** JavaScript string primitives *)

Module Js.

Definition code (c : ascii) : N := N_of_ascii c.

Definition between (lo hi n : N) : bool := ((lo <=? n) && (n <=? hi))%N.

(** [String.prototype.toLowerCase] on one Latin-1 code unit: [A-Z] and
    the accented capitals U+00C0..U+00DE (the multiplication sign U+00D7
    apart) move up by 32. *)
Definition toLowerChar (c : ascii) : ascii :=
  let n := code c in
  if between 65 90 n || (between 192 222 n && negb (n =? 215)%N)
  then ascii_of_N (n + 32) else c.

Fixpoint toLowerCase (s : string) : string :=
  match s with
  | EmptyString => EmptyString
  | String c s' => String (toLowerChar c) (toLowerCase s')
  end.

(** White space and line terminators below U+0100: TAB, LF, VT, FF, CR,
    SP and NBSP. *)
Definition isWhite (c : ascii) : bool :=
  let n := code c in between 9 13 n || (n =? 32)%N || (n =? 160)%N.

Fixpoint trimStart (s : string) : string :=
  match s with
  | EmptyString => EmptyString
  | String c s' => if isWhite c then trimStart s' else s
  end.

Fixpoint trimEnd (s : string) : string :=
  match s with
  | EmptyString => EmptyString
  | String c s' =>
      match trimEnd s' with
      | EmptyString => if isWhite c then EmptyString else String c EmptyString
      | t => String c t
      end
  end.

Definition trim (s : string) : string := trimEnd (trimStart s).

(** The regular expression class [\w] is [[A-Za-z0-9_]]. *)
Definition isWordChar (c : ascii) : bool :=
  let n := code c in
  between 48 57 n || between 65 90 n || (n =? 95)%N || between 97 122 n.

(** [s.split(/\W+/)]: the pieces of [s] between maximal runs of non-word
    characters.  A run at the start or at the end of [s] leaves an empty
    piece there, and the empty string splits into one empty piece.
    [splitW_go acc inrun s] scans [s]; [acc] is the current piece in
    reverse, [inrun] tells that the previous character was a separator. *)
Fixpoint rev_string (acc s : string) : string :=
  match s with
  | EmptyString => acc
  | String c s' => rev_string (String c acc) s'
  end.

Fixpoint splitW_go (acc : string) (inrun : bool) (s : string) : list string :=
  match s with
  | EmptyString => [rev_string EmptyString acc]
  | String c s' =>
      if isWordChar c then splitW_go (String c acc) false s'
      else if inrun then splitW_go acc true s'
      else rev_string EmptyString acc :: splitW_go EmptyString true s'
  end.

Definition splitW (s : string) : list string := splitW_go EmptyString false s.

(** [s.includes(kw)]: [kw] occurs in [s] as a substring. *)
Fixpoint includes (s kw : string) : bool :=
  String.prefix kw s ||
  match s with
  | EmptyString => false
  | String _ s' => includes s' kw
  end.

(** [Array.prototype.includes] on an array of strings. *)
Definition arr_includes (l : list string) (x : string) : bool :=
  existsb (String.eqb x) l.

(** [arr[i]] for a numeric index: [None] stands for [undefined]. *)
Definition arr_get {A} (l : list A) (i : Z) : option A :=
  if i <? 0 then None else nth_error l (Z.to_nat i).

(** [Array.prototype.join]. *)
Fixpoint join (sep : string) (l : list string) : string :=
  match l with
  | [] => EmptyString
  | [x] => x
  | x :: l' => x ++ sep ++ join sep l'
  end.

Definition String_of_bool (b : bool) : string := if b then "true" else "false".

End Js.

(** ** Domain model *)

Inductive ServiceCategoryId := Plumber | Electrician | Painter | Driver | General.

(** The string each identifier is in the source (the type is a union of
    string literals). *)
Definition cat_name (c : ServiceCategoryId) : string :=
  match c with
  | Plumber => "Plumber"
  | Electrician => "Electrician"
  | Painter => "Painter"
  | Driver => "Driver"
  | General => "General"
  end.

Definition cat_eqb (a b : ServiceCategoryId) : bool := String.eqb (cat_name a) (cat_name b).

Inductive FaqType := FaqText | FaqBoolean | FaqSelect.

Record FaqItem := mkFaq {
  faq_id : string;
  faq_type : FaqType;
  question : string;
  options : option (list string)
}.

(** [icon] is a display glyph outside Latin-1 and is read by the template
    only; it is left out. *)
Record CategoryDefinition := mkCat {
  cd_id : ServiceCategoryId;
  title : string;
  keywords : list string;
  faqs : list FaqItem
}.

Definition CATEGORY_DEFS : list CategoryDefinition := [
  mkCat Plumber "Plumber"
    ["leak"; "pipe"; "sink"; "drain"; "toilet"; "water heater"; "clog"; "faucet"; "sewer"]
    [ mkFaq "location" FaqSelect "Where is the issue located?"
        (Some ["Kitchen"; "Bathroom"; "Basement"; "Laundry"; "Outdoor"]);
      mkFaq "severity" FaqSelect "How severe is the issue?"
        (Some ["Minor drip"; "Slow drain"; "No water"; "Flooding"]);
      mkFaq "shutoff" FaqBoolean "Have you tried shutting off the water?" None;
      mkFaq "age" FaqSelect "Approximate age of the fixture?"
        (Some ["<1 year"; "1-3 years"; "3-5 years"; "5+ years"; "Unknown"]) ];
  mkCat Electrician "Electrician"
    ["outlet"; "breaker"; "fuse"; "light"; "wiring"; "short"; "power"; "spark"; "switch"]
    [ mkFaq "scope" FaqSelect "Which is affected?"
        (Some ["Single outlet"; "Room"; "Multiple rooms"; "Whole home"]);
      mkFaq "breaker" FaqBoolean "Did the breaker trip?" None;
      mkFaq "smell" FaqBoolean "Do you notice burning smell?" None;
      mkFaq "age" FaqSelect "Age of electrical system?"
        (Some ["<5 years"; "5-10 years"; "10-20 years"; "20+ years"; "Unknown"]) ];
  mkCat Painter "Painter"
    ["paint"; "wall"; "peel"; "crack"; "color"; "primer"; "roller"; "brush"; "exterior"; "interior"]
    [ mkFaq "area" FaqSelect "Where do you need painting?"
        (Some ["Interior walls"; "Ceiling"; "Exterior walls"; "Trim/Doors"; "Fence/Deck"]);
      mkFaq "size" FaqSelect "Approximate area size?"
        (Some ["<100 sq ft"; "100-300 sq ft"; "300-600 sq ft"; "600+ sq ft"]);
      mkFaq "finish" FaqSelect "Preferred finish?"
        (Some ["Matte"; "Eggshell"; "Satin"; "Semi-gloss"; "Gloss"]);
      mkFaq "prep" FaqBoolean "Is surface prep (sanding/patching) needed?" None ];
  mkCat Driver "Driver"
    ["ride"; "drive"; "pickup"; "drop off"; "transport"; "deliver"; "airport"; "taxi"; "car"]
    [ mkFaq "vehicle" FaqSelect "Vehicle type needed?"
        (Some ["Sedan"; "SUV"; "Van/Truck"; "No preference"]);
      mkFaq "distance" FaqSelect "Trip distance?"
        (Some ["<5 miles"; "5-15 miles"; "15-30 miles"; "30+ miles"]);
      mkFaq "time" FaqSelect "When do you need it?"
        (Some ["ASAP"; "Today"; "This week"; "Later date"]);
      mkFaq "luggage" FaqBoolean "Do you have large luggage/items?" None ];
  mkCat General "General Help"
    ["help"; "handyman"; "task"; "assemble"; "mount"; "fix"; "repair"; "install"; "move"]
    [ mkFaq "task" FaqText "Briefly describe the task" None;
      mkFaq "urgency" FaqSelect "How urgent is it?"
        (Some ["ASAP"; "Today"; "This week"; "Flexible"]);
      mkFaq "tools" FaqBoolean "Do you have necessary tools?" None ]
].

(** [CATEGORY_DEFS.reduce((acc, c) => { acc[c.id] = c; return acc; }, {})]:
    the table is built by assignment, a later definition of an identifier
    replacing an earlier one. *)
Definition CATEGORY_TABLE : ServiceCategoryId -> option CategoryDefinition :=
  fold_left
    (fun acc c => fun k => if cat_eqb k (cd_id c) then Some c else acc k)
    CATEGORY_DEFS (fun _ => None).

(** [CATEGORY_BY_ID[k]].  The table is total (lemma [CATEGORY_BY_ID_total]
    below), so the branch for an absent entry is never taken. *)
Definition CATEGORY_BY_ID (k : ServiceCategoryId) : CategoryDefinition :=
  match CATEGORY_TABLE k with
  | Some c => c
  | None => mkCat k "" [] []
  end.

(** ** Classifier *)

Record Best := mkBest { best_id : ServiceCategoryId; best_score : Z }.

(** [c.keywords.reduce((acc, kw) => acc + (lower.includes(kw) ? 1 : 0), 0)] *)
Definition keywordScore (lower : string) (c : CategoryDefinition) : Z :=
  fold_left (fun acc kw => acc + (if Js.includes lower kw then 1 else 0)) (keywords c) 0.

(** One turn of the loop over the catalog. *)
Definition detectStep (lower : string) (best : Best) (c : CategoryDefinition) : Best :=
  let score := keywordScore lower c in
  if score >? best_score best then mkBest (cd_id c) score else best.

Definition detectLoop (defs : list CategoryDefinition) (lower : string) : Best :=
  fold_left (detectStep lower) defs (mkBest General 0).

Definition detectCategory (text : string) : ServiceCategoryId :=
  let lower := Js.toLowerCase text in
  let best := detectLoop CATEGORY_DEFS lower in
  if best_score best >? 0 then best_id best else General.

(** ** Workers, answers and the wizard state *)

(** [role] is the constant ['Worker'] and is left out. *)
Record WorkerProfile := mkWorker {
  w_id : string;
  w_name : string;
  w_location : string;
  specialty : string;
  bio : string;
  rating : Q;
  jobsCompleted : Z;
  available : bool;
  skills : list string;
  hourlyRate : Q
}.

Inductive AnswerValue := AStr (s : string) | ABool (b : bool).

(** [Record<string, string | boolean>], in property order. *)
Definition Answers := list (string * AnswerValue).

(** [{ ...a, [fid]: v }]: an own property keeps its position when it is
    assigned again, a new one goes last. *)
Fixpoint set_answer (a : Answers) (fid : string) (v : AnswerValue) : Answers :=
  match a with
  | [] => [(fid, v)]
  | (k, x) :: a' =>
      if String.eqb k fid then (k, v) :: a' else (k, x) :: set_answer a' fid v
  end.

(** [a[fid]] *)
Fixpoint get_answer (a : Answers) (fid : string) : option AnswerValue :=
  match a with
  | [] => None
  | (k, x) :: a' => if String.eqb k fid then Some x else get_answer a' fid
  end.

Inductive Step := StepStart | StepFaqs | StepResults.

Record ChatState := mkState {
  isOpen : bool;
  step : Step;
  category : ServiceCategoryId;
  problem : string;
  faqIndex : Z;
  answers : Answers;
  ranked : list WorkerProfile
}.

(** The component: the [state] signal and the two text signals bound to
    the input fields. *)
Record AiModal := mkModal {
  state : ChatState;
  draftProblem : string;
  currentAnswerText : string
}.

Definition upd_state (f : ChatState -> ChatState) (m : AiModal) : AiModal :=
  mkModal (f (state m)) (draftProblem m) (currentAnswerText m).

Definition with_isOpen (b : bool) (s : ChatState) : ChatState :=
  mkState b (step s) (category s) (problem s) (faqIndex s) (answers s) (ranked s).

Definition with_faqIndex (i : Z) (s : ChatState) : ChatState :=
  mkState (isOpen s) (step s) (category s) (problem s) i (answers s) (ranked s).

Definition with_answers (a : Answers) (s : ChatState) : ChatState :=
  mkState (isOpen s) (step s) (category s) (problem s) (faqIndex s) a (ranked s).

Definition with_results (r : list WorkerProfile) (s : ChatState) : ChatState :=
  mkState (isOpen s) StepResults (category s) (problem s) (faqIndex s) (answers s) r.

Definition freshState (open : bool) : ChatState :=
  mkState open StepStart General "" 0 [] [].

(** The component as constructed. *)
Definition initialModal : AiModal := mkModal (freshState false) "" "".

(** ** Ranker *)

(** The [keywords] array of [rankWorkers]: the category's keywords, then
    the pieces of every string answer, lower-cased and split on [\W+]. *)
Definition answerTokens (v : AnswerValue) : list string :=
  match v with
  | AStr x => Js.splitW (Js.toLowerCase x)
  | ABool _ => []
  end.

Definition rankKeywords (s : ChatState) : list string :=
  keywords (CATEGORY_BY_ID (category s)) ++ flat_map answerTokens (map snd (answers s)).

Definition skillMatchOf (kws : list string) (w : WorkerProfile) : Z :=
  fold_left
    (fun acc sk => acc + (if Js.arr_includes kws (Js.toLowerCase sk) then 1 else 0))
    (skills w) 0.

Definition scoreWorker (s : ChatState) (kws : list string) (w : WorkerProfile) : Q :=
  let skillMatch := skillMatchOf kws w in
  let specialtyBoost := if String.eqb (specialty w) (cat_name (category s)) then 2 else 0 in
  let ratingScore := rating w in
  let availabilityBonus := if available w then 2 else 0 in
  (inject_Z skillMatch * 3 + inject_Z specialtyBoost + ratingScore * (6 # 5)
   + inject_Z availabilityBonus)%Q.

Record Scored := mkScored { sw : WorkerProfile; sc : Q }.

(** The comparator [(a, b) => b.sc - a.sc]. *)
Definition byScoreDesc (a b : Scored) : Q := (sc b - sc a)%Q.

Definition Qpositive (q : Q) : bool := 0 <? Qnum q.

(** [Array.prototype.sort] is stable.  With a comparator that is a
    consistent ordering the result is determined: it is the one computed
    by inserting the elements one after the other from the right, an
    element moving past those that compare strictly before it. *)
Fixpoint sort_insert {A} (cmp : A -> A -> Q) (x : A) (l : list A) : list A :=
  match l with
  | [] => [x]
  | y :: l' => if Qpositive (cmp x y) then y :: sort_insert cmp x l' else x :: l
  end.

Definition js_sort {A} (cmp : A -> A -> Q) (l : list A) : list A :=
  fold_right (sort_insert cmp) [] l.

Definition rankWorkers (workers : list WorkerProfile) (s : ChatState) : list WorkerProfile :=
  let kws := rankKeywords s in
  map sw
    (firstn 3
       (js_sort byScoreDesc
          (map (fun w => mkScored w (scoreWorker s kws w)) workers))).

(** ** Wizard operations *)

Definition categoryDef (m : AiModal) : CategoryDefinition :=
  CATEGORY_BY_ID (category (state m)).

Definition faqsOf (m : AiModal) : list FaqItem := faqs (categoryDef m).

(** [faqs()[faqIndex] ?? faqs()[0]]; [None] is [undefined]. *)
Definition currentFaq (m : AiModal) : option FaqItem :=
  match Js.arr_get (faqsOf m) (faqIndex (state m)) with
  | Some f => Some f
  | None => Js.arr_get (faqsOf m) 0
  end.

(** [ngOnChanges], with the value of the [isOpen] input. *)
Definition ngOnChanges (input_isOpen : bool) (m : AiModal) : AiModal :=
  if input_isOpen then mkModal (freshState true) "" "" else m.

(** [close]; the [closed] event it emits goes to the parent and is not
    part of the component's state. *)
Definition close (m : AiModal) : AiModal := upd_state (with_isOpen false) m.

Definition submitProblem (m : AiModal) : AiModal :=
  let prob := Js.trim (draftProblem m) in
  let cat := detectCategory prob in
  let s := state m in
  mkModal (mkState (isOpen s) StepFaqs cat prob 0 [] (ranked s)) (draftProblem m) "".

(** The operations that read a field of [currentFaq()] throw a
    [TypeError] when it is [undefined]: they return [None] then. *)
Definition answerBoolean (v : bool) (m : AiModal) : option AiModal :=
  match currentFaq m with
  | None => None
  | Some f =>
      Some (upd_state (fun s => with_answers (set_answer (answers s) (faq_id f) (ABool v)) s) m)
  end.

Definition answerSelect (v : string) (m : AiModal) : option AiModal :=
  match currentFaq m with
  | None => None
  | Some f =>
      Some (upd_state (fun s => with_answers (set_answer (answers s) (faq_id f) (AStr v)) s) m)
  end.

Definition prevFaq (m : AiModal) : AiModal :=
  upd_state (fun s => with_faqIndex (Z.max 0 (faqIndex s - 1)) s) m.

Definition is_text (f : FaqItem) : bool :=
  match faq_type f with FaqText => true | _ => false end.

(** A string is truthy when it is not empty. *)
Definition truthy (s : string) : bool :=
  match s with EmptyString => false | _ => true end.

(** The first statement of [nextFaq]: a pending free-text answer is
    recorded and the field cleared. *)
Definition recordText (faq : FaqItem) (m : AiModal) : AiModal :=
  if is_text faq && truthy (Js.trim (currentAnswerText m)) then
    let txt := Js.trim (currentAnswerText m) in
    mkModal (with_answers (set_answer (answers (state m)) (faq_id faq) (AStr txt)) (state m))
            (draftProblem m) ""
  else m.

(** [nextFaq], with the roster [this.fb.allWorkers()] read at the call. *)
Definition nextFaq (workers : list WorkerProfile) (m : AiModal) : option AiModal :=
  match currentFaq m with
  | None => None
  | Some faq =>
      let m1 := recordText faq m in
      if faqIndex (state m1) <? Z.of_nat (List.length (faqsOf m1)) - 1 then
        Some (upd_state (fun s => with_faqIndex (faqIndex s + 1) s) m1)
      else
        let r := rankWorkers workers (state m1) in
        Some (upd_state (with_results r) m1)
  end.

(** ** Jobs and the document store *)

Inductive JobStatus := Pending | Accepted | Completed | Canceled.

(** The two timestamps are the server's clock readings. *)
Record Job := mkJob {
  job_id : string;
  customerId : string;
  workerId : string;
  job_category : ServiceCategoryId;
  description : string;
  status : JobStatus;
  createdAt : Z;
  updatedAt : Z
}.

(** What the job operations of [FirebaseService] read: the jobs
    collection when the store is configured ([this.db]), and the signed-in
    user's uid. *)
Record FirebaseService := mkService {
  db : option (gmap string Job);
  currentFirebaseUser : option string
}.

(** [updateDoc(ref, { status, updatedAt: serverTimestamp() })] on the jobs
    collection: the promise is rejected ([None]) when the document does
    not exist; the other fields are kept. *)
Definition updateDoc (jobs : gmap string Job) (jobId : string) (st : JobStatus) (now : Z)
  : option (gmap string Job) :=
  match jobs !! jobId with
  | None => None
  | Some j =>
      Some (<[jobId := mkJob (job_id j) (customerId j) (workerId j) (job_category j)
                             (description j) st (createdAt j) now]> jobs)
  end.

Definition cancelJob (now : Z) (jobId : string) (svc : FirebaseService) : option FirebaseService :=
  match db svc with
  | None => Some svc
  | Some jobs =>
      match updateDoc jobs jobId Canceled now with
      | None => None
      | Some jobs' => Some (mkService (Some jobs') (currentFirebaseUser svc))
      end
  end.

Definition acceptJob (now : Z) (jobId : string) (svc : FirebaseService) : option FirebaseService :=
  match db svc with
  | None => Some svc
  | Some jobs =>
      match updateDoc jobs jobId Accepted now with
      | None => None
      | Some jobs' => Some (mkService (Some jobs') (currentFirebaseUser svc))
      end
  end.

Definition completeJob (now : Z) (jobId : string) (svc : FirebaseService) : option FirebaseService :=
  match db svc with
  | None => Some svc
  | Some jobs =>
      match updateDoc jobs jobId Completed now with
      | None => None
      | Some jobs' => Some (mkService (Some jobs') (currentFirebaseUser svc))
      end
  end.

(** The [job] literal of [createJobForWorker]; [newId] is the identifier
    the store generates for [doc(jobsCol)]. *)
Definition jobRequest (newId uid : string) (now : Z)
    (worker : WorkerProfile) (cat : ServiceCategoryId) (descr : string) : Job :=
  mkJob newId uid (w_id worker) cat descr Pending now now.

(** [createJobForWorker]: without a signed-in user or a store it returns;
    otherwise [setDoc] writes the request under its identifier. *)
Definition createJobForWorker (newId : string) (now : Z)
    (worker : WorkerProfile) (cat : ServiceCategoryId) (descr : string)
    (svc : FirebaseService) : FirebaseService :=
  match currentFirebaseUser svc, db svc with
  | Some uid, Some jobs =>
      mkService (Some (<[newId := jobRequest newId uid now worker cat descr]> jobs)) (Some uid)
  | _, _ => svc
  end.

(** ** Booking from the wizard *)

Definition String_of (v : AnswerValue) : string :=
  match v with
  | AStr x => x
  | ABool b => Js.String_of_bool b
  end.

(** The template literal [`${k}: ${String(v)}`]. *)
Definition renderAnswer (kv : string * AnswerValue) : string :=
  fst kv ++ ": " ++ String_of (snd kv).

(** [[s.problem, ...Object.entries(s.answers).map(...)].join(' | ')] *)
Definition bookDescription (s : ChatState) : string :=
  Js.join " | " (problem s :: map renderAnswer (answers s)).

Definition book (newId : string) (now : Z) (worker : WorkerProfile)
    (svc : FirebaseService) (m : AiModal) : FirebaseService * AiModal :=
  let s := state m in
  let descr := bookDescription s in
  (createJobForWorker newId now worker (category s) descr svc, close m).

(** ** The ranker over a store of arrays

    [sort] is the one array method of [rankWorkers] that works in place;
    spreading, [map] and [slice] allocate.  To speak of what [rankWorkers]
    does to the roster array it is given, arrays are placed in a store and
    addressed by their index in it. *)

Inductive Arr := ArrW (l : list WorkerProfile) | ArrS (l : list Scored).

Abbreviation Store := (list Arr).

(** A computation on the store that may get stuck on an address of the
    wrong kind. *)
Definition M (A : Type) : Type := Store -> option (A * Store).

Definition ret {A} (x : A) : M A := fun h => Some (x, h).

Definition bind {A B} (c : M A) (k : A -> M B) : M B :=
  fun h => match c h with
           | None => None
           | Some (x, h') => k x h'
           end.

Notation "'let*' x := c 'in' k" := (bind c (fun x => k))
  (at level 10, x name, c at level 100, k at level 200).

Definition alloc (a : Arr) : M nat := fun h => Some (List.length h, (h ++ [a])%list).

Definition readW (p : nat) : M (list WorkerProfile) :=
  fun h => match h !! p with Some (ArrW l) => Some (l, h) | _ => None end.

Definition readS (p : nat) : M (list Scored) :=
  fun h => match h !! p with Some (ArrS l) => Some (l, h) | _ => None end.

(** [[...a]] *)
Definition spreadW (p : nat) : M nat := let* l := readW p in alloc (ArrW l).

(** [a.map(f)], for the two maps of [rankWorkers]. *)
Definition mapWS (f : WorkerProfile -> Scored) (p : nat) : M nat :=
  let* l := readW p in alloc (ArrS (map f l)).

Definition mapSW (f : Scored -> WorkerProfile) (p : nat) : M nat :=
  let* l := readS p in alloc (ArrW (map f l)).

(** [a.sort(cmp)]: the array at [p] is overwritten, and [p] returned. *)
Definition sortS (cmp : Scored -> Scored -> Q) (p : nat) : M nat :=
  let* l := readS p in fun h => Some (p, <[p := ArrS (js_sort cmp l)]> h).

(** [a.slice(0, n)] *)
Definition sliceS (n : nat) (p : nat) : M nat :=
  let* l := readS p in alloc (ArrS (firstn n l)).

Definition rankWorkers_st (workers : nat) (s : ChatState) : M nat :=
  let kws := rankKeywords s in
  let* a1 := spreadW workers in
  let* a2 := mapWS (fun w => mkScored w (scoreWorker s kws w)) a1 in
  let* a3 := sortS byScoreDesc a2 in
  let* a4 := sliceS 3 a3 in
  mapSW sw a4.

(** ** The wizard as the template offers it

    The buttons of the template call the operations; each is rendered
    under a condition on the state.  [enabled] is that condition, [fire]
    the operation called. *)

Inductive Event :=
| EvOpen
| EvClose
| EvDraft (text : string)
| EvSubmit
| EvAnswerText (text : string)
| EvAnswerBoolean (v : bool)
| EvAnswerSelect (opt : string)
| EvPrev
| EvNext (workers : list WorkerProfile)
| EvBook (w : WorkerProfile).

Definition step_eqb (a b : Step) : bool :=
  match a, b with
  | StepStart, StepStart | StepFaqs, StepFaqs | StepResults, StepResults => true
  | _, _ => false
  end.

Definition faq_type_eqb (a b : FaqType) : bool :=
  match a, b with
  | FaqText, FaqText | FaqBoolean, FaqBoolean | FaqSelect, FaqSelect => true
  | _, _ => false
  end.

Definition currentFaq_is (t : FaqType) (m : AiModal) : bool :=
  match currentFaq m with
  | Some f => faq_type_eqb (faq_type f) t
  | None => false
  end.

(** [currentFaq().options ?? []] *)
Definition currentOptions (m : AiModal) : list string :=
  match currentFaq m with
  | Some f => match options f with Some l => l | None => [] end
  | None => []
  end.

Definition in_step (st : Step) (m : AiModal) : bool :=
  isOpen (state m) && step_eqb (step (state m)) st.

Definition enabled (m : AiModal) (e : Event) : bool :=
  match e with
  | EvOpen => true
  | EvClose => isOpen (state m)
  | EvDraft _ | EvSubmit => in_step StepStart m
  | EvAnswerText _ => in_step StepFaqs m && currentFaq_is FaqText m
  | EvAnswerBoolean _ => in_step StepFaqs m && currentFaq_is FaqBoolean m
  | EvAnswerSelect opt =>
      in_step StepFaqs m && currentFaq_is FaqSelect m
      && Js.arr_includes (currentOptions m) opt
  | EvPrev | EvNext _ => in_step StepFaqs m
  | EvBook w => in_step StepResults m
  end.

Definition fire (e : Event) (m : AiModal) : option AiModal :=
  match e with
  | EvOpen => Some (ngOnChanges true m)
  | EvClose => Some (close m)
  | EvDraft t => Some (mkModal (state m) t (currentAnswerText m))
  | EvSubmit => Some (submitProblem m)
  | EvAnswerText t => Some (mkModal (state m) (draftProblem m) t)
  | EvAnswerBoolean v => answerBoolean v m
  | EvAnswerSelect opt => answerSelect opt m
  | EvPrev => Some (prevFaq m)
  | EvNext ws => nextFaq ws m
  | EvBook _ => Some (close m)
  end.

Definition wizard_step (m : AiModal) (e : Event) (m' : AiModal) : Prop :=
  enabled m e = true /\ fire e m = Some m'.

Inductive reachable : AiModal -> Prop :=
| reach_init : reachable initialModal
| reach_step m e m' : reachable m -> wizard_step m e m' -> reachable m'.

(** Running a list of events from a state; [None] when one of them is not
    offered or throws. *)
Fixpoint run (es : list Event) (m : AiModal) : option AiModal :=
  match es with
  | [] => Some m
  | e :: es' =>
      if enabled m e then
        match fire e m with
        | Some m' => run es' m'
        | None => None
        end
      else None
  end.

(** ** Definitions used to state the properties *)

(** The score [rankWorkers] gives a worker in state [s]. *)
Definition rankerScore (s : ChatState) (w : WorkerProfile) : Q :=
  scoreWorker s (rankKeywords s) w.

(** The combined keyword set in the words of the specification: the
    classification keywords of the category, and every piece obtained from
    a string-valued answer by lower-casing and splitting on non-word
    characters.  Boolean answers give nothing. *)
Definition spec_keywordSet (c : ServiceCategoryId) (a : Answers) (x : string) : Prop :=
  In x (keywords (CATEGORY_BY_ID c)) \/
  exists k v, In (k, AStr v) a /\ In x (Js.splitW (Js.toLowerCase v)).

(** The number of skills whose lower-cased form is in the set. *)
Definition spec_skillMatch (member : string -> bool) (w : WorkerProfile) : Z :=
  Z.of_nat (List.length (filter (fun sk => member (Js.toLowerCase sk)) (skills w))).

Definition scoredOf (s : ChatState) (w : WorkerProfile) : Scored :=
  mkScored w (rankerScore s w).

Definition sample_state : ChatState :=
  mkState true StepFaqs Plumber "My kitchen sink is leaking badly" 3
    [("location", AStr "Kitchen"); ("severity", AStr "Flooding");
     ("shutoff", ABool true); ("age", AStr "1-3 years")] [].

Definition sample_roster : list WorkerProfile :=
  [ mkWorker "w1" "Ana" "Nearby" "Electrician" "" (49 # 10) 12 true ["wiring"] 50;
    mkWorker "w2" "Bo" "Nearby" "Plumber" "" (48 # 10) 30 false ["sink"; "Drain"] 45;
    mkWorker "w3" "Cy" "Nearby" "Plumber" "" (48 # 10) 30 true ["sink"; "Drain"] 45;
    mkWorker "w4" "Di" "Nearby" "General" "" (40 # 10) 7 true [] 30 ].

(** What recording an answer leaves alone, and what it sets. *)
Definition answer_frame (m m' : AiModal) (fid : string) (v : AnswerValue) : Prop :=
  isOpen (state m') = isOpen (state m) /\
  step (state m') = step (state m) /\
  category (state m') = category (state m) /\
  problem (state m') = problem (state m) /\
  faqIndex (state m') = faqIndex (state m) /\
  ranked (state m') = ranked (state m) /\
  draftProblem m' = draftProblem m /\
  currentAnswerText m' = currentAnswerText m /\
  get_answer (answers (state m')) fid = Some v /\
  (forall k, k <> fid -> get_answer (answers (state m')) k = get_answer (answers (state m)) k).

(** The wizard opened on the problem "help": its category is [General],
    whose first question is the free-text one. *)
Definition general_at_task (pending : string) : AiModal :=
  mkModal (mkState true StepFaqs General "help" 0 [] []) "help" pending.

(** The step in which the template renders the control of an event. *)
Definition offered_in (e : Event) : option Step :=
  match e with
  | EvOpen | EvClose => None
  | EvDraft _ | EvSubmit => Some StepStart
  | EvAnswerText _ | EvAnswerBoolean _ | EvAnswerSelect _ | EvPrev | EvNext _ => Some StepFaqs
  | EvBook _ => Some StepResults
  end.

(** A list in non-increasing order of [key]. *)
Definition descending {A} (key : A -> Q) (l : list A) : Prop :=
  StronglySorted (fun a b => (key b <= key a)%Q) l.

Definition lastFaq (s : ChatState) : Z :=
  Z.of_nat (List.length (faqs (CATEGORY_BY_ID (category s)))) - 1.

Definition wizard_inv (s : ChatState) : Prop :=
  0 <= faqIndex s <= lastFaq s /\
  (ranked s <> [] -> step s = StepResults) /\
  (List.length (ranked s) <= 3)%nat /\
  descending (rankerScore s) (ranked s).

Fixpoint concat_strings (l : list string) : string :=
  match l with
  | [] => ""
  | x :: l' => x ++ concat_strings l'
  end.

(** The description in the words of the specification: the problem text,
    then each answer as [key: value], each preceded by the delimiter. *)
Definition spec_description (s : ChatState) : string :=
  problem s ++
  concat_strings (map (fun kv => " | " ++ fst kv ++ ": " ++ String_of (snd kv)) (answers s)).

Definition sample_service : FirebaseService := mkService (Some ∅) (Some "u1").

Definition sample_results : AiModal :=
  mkModal (with_results (rankWorkers sample_roster sample_state) sample_state) "" "".

Definition sample_worker : WorkerProfile :=
  mkWorker "w3" "Cy" "Nearby" "Plumber" "" (48 # 10) 30 true ["sink"; "Drain"] 45.

Definition status_eqb (a b : JobStatus) : bool :=
  match a, b with
  | Pending, Pending | Accepted, Accepted | Completed, Completed | Canceled, Canceled => true
  | _, _ => false
  end.

(** The jobs of the worker's Jobs tab (line 1146): those of
    [myJobsAsWorker] listed as [Pending]. *)
Definition pendingWorkerJobs (myJobsAsWorker : list Job) : list Job :=
  filter (fun j => status_eqb (status j) Pending) myJobsAsWorker.

(** ** The event bindings of the templates

    Every event binding of the three templates of [app.ts], with the line
    it is on.  A binding with an argument has one handler for each value
    the template can pass. *)
Inductive Handler :=
| H_onInput (text : string)             (* 589  (input)="onInput($event)" *)
| H_close                               (* 652, 660  close() *)
| H_draftProblem (text : string)        (* 675  draftProblem.set($event) *)
| H_submitProblem                       (* 677  submitProblem() *)
| H_currentAnswerText (text : string)   (* 697  currentAnswerText.set($event) *)
| H_answerBoolean (v : bool)            (* 701, 702  answerBoolean(true/false) *)
| H_answerSelect (opt : string)         (* 707  answerSelect(opt) *)
| H_prevFaq                             (* 713  prevFaq() *)
| H_nextFaq                             (* 714  nextFaq() *)
| H_book (w : WorkerProfile)            (* 740  book(w) *)
| H_signOut                             (* 894  fb.signOut() *)
| H_signInAsCustomer                    (* 914  fb.signInAsCustomer() *)
| H_signInAsWorker                      (* 915  fb.signInAsWorker() *)
| H_openAi                              (* 934, 1074  openAi() *)
| H_quickBook (w : WorkerProfile)       (* 959  quickBook(w) *)
| H_cancelJob (jobId : string)          (* 982  fb.cancelJob(j.id) *)
| H_toggleAvailability                  (* 1006  toggleAvailability() *)
| H_acceptJob (jobId : string)          (* 1027  fb.acceptJob(j.id) *)
| H_setTab (t : string)                 (* 1066  setTab(t) *)
| H_closed.                             (* 1079  (closed)="aiOpen.set(false)" *)

(** The methods of [FirebaseService] that write a job document. *)
Inductive JobMethod :=
| M_cancelJob (jobId : string)
| M_acceptJob (jobId : string)
| M_completeJob (jobId : string)
| M_createJobForWorker (w : WorkerProfile).

(** The job methods a handler calls, in the binding itself or in the body
    of the component method it names: [book] calls [createJobForWorker]
    (line 872) and so does [quickBook] (line 1143); the other component
    methods call none. *)
Definition job_methods (h : Handler) : list JobMethod :=
  match h with
  | H_book w => [M_createJobForWorker w]
  | H_quickBook w => [M_createJobForWorker w]
  | H_cancelJob jobId => [M_cancelJob jobId]
  | H_acceptJob jobId => [M_acceptJob jobId]
  | H_onInput _ | H_close | H_draftProblem _ | H_submitProblem
  | H_currentAnswerText _ | H_answerBoolean _ | H_answerSelect _
  | H_prevFaq | H_nextFaq | H_signOut | H_signInAsCustomer
  | H_signInAsWorker | H_openAi | H_toggleAvailability | H_setTab _
  | H_closed => []
  end.

(** The Cancel buttons of the customer's Hired tab (lines 974-984): the
    template walks [fb.myJobsAsCustomer()] and renders the button inside
    [@if (j.status === 'Pending')]. *)
Definition hiredTabHandlers (myJobsAsCustomer : list Job) : list Handler :=
  flat_map (fun j => if status_eqb (status j) Pending
                     then [H_cancelJob (job_id j)] else [])
           myJobsAsCustomer.

(** The Accept buttons of the worker's Jobs tab (lines 1018-1030): one for
    each job of [pendingWorkerJobs()]. *)
Definition jobsTabHandlers (myJobsAsWorker : list Job) : list Handler :=
  map (fun j => H_acceptJob (job_id j)) (pendingWorkerJobs myJobsAsWorker).

Definition statusOf (svc : FirebaseService) (jobId : string) : option JobStatus :=
  match db svc with
  | Some jobs => status <$> jobs !! jobId
  | None => None
  end.

Definition sample_job (st : JobStatus) : Job :=
  mkJob "j1" "u1" "w3" Plumber "Quick booking for Plumber" st 1 1.

Definition service_with (st : JobStatus) : FirebaseService :=
  mkService (Some {[ "j1" := sample_job st ]}) (Some "u1").

(** What one status operation does on a stored job: the status becomes
    [st] whatever it was, the update time is the server's, the other
    fields and the other jobs stay. *)
Definition sets_status (op : Z -> string -> FirebaseService -> option FirebaseService)
    (st : JobStatus) : Prop :=
  forall now jobId user jobs j,
    jobs !! jobId = Some j ->
    exists jobs',
      op now jobId (mkService (Some jobs) user) = Some (mkService (Some jobs') user) /\
      jobs' !! jobId
      = Some (mkJob (job_id j) (customerId j) (workerId j) (job_category j)
                    (description j) st (createdAt j) now) /\
      (forall k, k <> jobId -> jobs' !! k = jobs !! k).

(** A string made of word characters only. *)
Fixpoint allWord (s : string) : bool :=
  match s with
  | EmptyString => true
  | String c s' => Js.isWordChar c && allWord s'
  end.

(** ** The worker roster

    A document of the public workers collection, as [d.data()] gives it:
    any field may be absent. *)
Record WorkerDoc := mkWorkerDoc {
  d_name : option string;
  d_location : option string;
  d_specialty : option string;
  d_bio : option string;
  d_rating : option Q;
  d_jobsCompleted : option Z;
  d_available : option bool;
  d_skills : option (list string);
  d_hourlyRate : option Q
}.

(** [x || d] on a string field: an absent or empty [x] gives [d]. *)
Definition or_string (x : option string) (d : string) : string :=
  match x with
  | Some s => if truthy s then s else d
  | None => d
  end.

(** [x ?? d]: only an absent [x] gives [d]. *)
Definition nullish {A} (x : option A) (d : A) : A :=
  match x with
  | Some v => v
  | None => d
  end.

(** The worker built from a document in the snapshot callback of
    [attachWorkersListener]. *)
Definition workerOfDoc (entry : string * WorkerDoc) : WorkerProfile :=
  let (id, wd) := entry in
  mkWorker id
    (or_string (d_name wd) "Worker")
    (or_string (d_location wd) "Unknown")
    (or_string (d_specialty wd) "General")
    (or_string (d_bio wd) "")
    (nullish (d_rating wd) (45 # 10))
    (nullish (d_jobsCompleted wd) 0)
    (nullish (d_available wd) true)
    (nullish (d_skills wd) [])
    (nullish (d_hourlyRate wd) 50%Q).

Definition Number_of_bool (b : bool) : Q := if b then 1%Q else 0%Q.

(** The comparator
    [(a, b) => (Number(b.available) - Number(a.available)) || (b.rating - a.rating)]. *)
Definition rosterOrder (a b : WorkerProfile) : Q :=
  let d := (Number_of_bool (available b) - Number_of_bool (available a))%Q in
  if Qeq_bool d 0%Q then (rating b - rating a)%Q else d.

(** The snapshot callback: the value given to [allWorkers], for the
    documents of the snapshot in its order. *)
Definition onWorkersSnapshot (snap : list (string * WorkerDoc)) : list WorkerProfile :=
  js_sort rosterOrder (map workerOfDoc snap).

(** [availableWorkers] of the root component. *)
Definition availableWorkers (allWorkers : list WorkerProfile) : list WorkerProfile :=
  filter available allWorkers.

(** The order the roster is kept in: an available worker before an
    unavailable one, and of two alike the better rated first. *)
Definition rosterBefore (a b : WorkerProfile) : Prop :=
  (available a = true \/ available b = false) /\
  (available a = available b -> (rating b <= rating a)%Q).

(** A snapshot of a collection: its documents, in some order. *)
Definition snapshot_of (docs : gmap string WorkerDoc) (snap : list (string * WorkerDoc)) : Prop :=
  forall id d, In (id, d) snap <-> docs !! id = Some d.

(** ** Availability of the signed-in worker *)

Record CustomerProfile := mkCustomer {
  c_id : string;
  c_name : string;
  c_location : string
}.

Inductive UserProfile := AsCustomer (c : CustomerProfile) | AsWorker (w : WorkerProfile).

(** What [setWorkerAvailability] reads and writes of [FirebaseService]:
    whether the store is configured, the [userProfile] signal, the private
    profile documents by uid and the public workers collection.  Of a
    private profile document only the worker fields are kept. *)
Record Directory := mkDirectory {
  dir_db : bool;
  userProfile : option UserProfile;
  profileDocs : gmap string WorkerDoc;
  workerDocs : gmap string WorkerDoc
}.

Definition emptyDoc : WorkerDoc :=
  mkWorkerDoc None None None None None None None None None.

(** The field update [{ available }] on a document. *)
Definition doc_with_available (b : bool) (d : WorkerDoc) : WorkerDoc :=
  mkWorkerDoc (d_name d) (d_location d) (d_specialty d) (d_bio d) (d_rating d)
              (d_jobsCompleted d) (Some b) (d_skills d) (d_hourlyRate d).

(** [{ ...profile, available }] *)
Definition worker_with_available (b : bool) (w : WorkerProfile) : WorkerProfile :=
  mkWorker (w_id w) (w_name w) (w_location w) (specialty w) (bio w) (rating w)
           (jobsCompleted w) b (skills w) (hourlyRate w).

(** [setWorkerAvailability].  [updateDoc] on the private profile is
    rejected when the document does not exist ([None]); [setDoc] with
    [merge] on the public document creates it when it does not. *)
Definition setWorkerAvailability (b : bool) (dir : Directory) : option Directory :=
  match userProfile dir with
  | Some (AsWorker w) =>
      if dir_db dir then
        match profileDocs dir !! w_id w with
        | None => None
        | Some p =>
            Some (mkDirectory true
                    (Some (AsWorker (worker_with_available b w)))
                    (<[w_id w := doc_with_available b p]> (profileDocs dir))
                    (<[w_id w := doc_with_available b
                                   (nullish (workerDocs dir !! w_id w) emptyDoc)]>
                       (workerDocs dir)))
        end
      else Some dir
  | _ => Some dir
  end.

(** ** Calls of [setWorkerAvailability] in flight

    [toggleAvailability] does not await the call it makes, and the call
    awaits twice before it writes the [userProfile] signal.  A call in
    flight keeps the profile it read and the value it was made with, and
    the await it is suspended at. *)
Inductive Stage := AwaitUpdateDoc | AwaitSetDoc.

Record InFlight := mkInFlight {
  fl_profile : WorkerProfile;
  fl_available : bool;
  fl_stage : Stage
}.

Record Session := mkSession {
  ses_dir : Directory;
  ses_calls : list InFlight
}.

(** [setWorkerAvailability] up to its first await: the guard, then
    [updateDoc] on the private profile.  When the document does not exist
    the promise is rejected and the call ends there. *)
Definition callSetWorkerAvailability (b : bool) (ses : Session) : Session :=
  let dir := ses_dir ses in
  match userProfile dir with
  | Some (AsWorker w) =>
      if dir_db dir then
        match profileDocs dir !! w_id w with
        | None => ses
        | Some p =>
            mkSession
              (mkDirectory true (userProfile dir)
                 (<[w_id w := doc_with_available b p]> (profileDocs dir))
                 (workerDocs dir))
              (ses_calls ses ++ [mkInFlight w b AwaitUpdateDoc])%list
        end
      else ses
  | _ => ses
  end.

(** The call at position [i] goes on after the await it is suspended at:
    after the first, [setDoc] with [merge] on the public document; after
    the second, [userProfile.set({ ...profile, available })], which ends
    the call. *)
Definition resume (i : nat) (ses : Session) : option Session :=
  match ses_calls ses !! i with
  | None => None
  | Some c =>
      let dir := ses_dir ses in
      let id := w_id (fl_profile c) in
      match fl_stage c with
      | AwaitUpdateDoc =>
          Some (mkSession
                  (mkDirectory (dir_db dir) (userProfile dir) (profileDocs dir)
                     (<[id := doc_with_available (fl_available c)
                                (nullish (workerDocs dir !! id) emptyDoc)]>
                        (workerDocs dir)))
                  (<[i := mkInFlight (fl_profile c) (fl_available c) AwaitSetDoc]>
                     (ses_calls ses)))
      | AwaitSetDoc =>
          Some (mkSession
                  (mkDirectory (dir_db dir)
                     (Some (AsWorker (worker_with_available (fl_available c) (fl_profile c))))
                     (profileDocs dir) (workerDocs dir))
                  (delete i (ses_calls ses)))
      end
  end.

(** Resumptions in the order the event loop runs them. *)
Fixpoint resumes (sched : list nat) (ses : Session) : option Session :=
  match sched with
  | [] => Some ses
  | i :: sched' =>
      match resume i ses with
      | Some ses' => resumes sched' ses'
      | None => None
      end
  end.

(** [toggleAvailability] of the root component: the call is made with the
    negation of the availability the signal holds at the click, and is not
    awaited. *)
Definition toggleAvailability (ses : Session) : Session :=
  match userProfile (ses_dir ses) with
  | Some (AsWorker w) => callSetWorkerAvailability (negb (available w)) ses
  | _ => ses
  end.

(** ** Sequences of status operations and the job lists *)

Inductive StatusOp := OpCancel | OpAccept | OpComplete.

Definition op_status (o : StatusOp) : JobStatus :=
  match o with
  | OpCancel => Canceled
  | OpAccept => Accepted
  | OpComplete => Completed
  end.

Definition apply_op (o : StatusOp) : Z -> string -> FirebaseService -> option FirebaseService :=
  match o with
  | OpCancel => cancelJob
  | OpAccept => acceptJob
  | OpComplete => completeJob
  end.

(** Calls made one after the other, each awaited; a rejected call ends
    the sequence. *)
Fixpoint run_ops (ops : list (StatusOp * Z * string)) (svc : FirebaseService)
  : option FirebaseService :=
  match ops with
  | [] => Some svc
  | (o, now, jobId) :: ops' =>
      match apply_op o now jobId svc with
      | Some svc' => run_ops ops' svc'
      | None => None
      end
  end.

(** The status the last call on [jobId] asks for, [st] when there is none. *)
Definition last_status (ops : list (StatusOp * Z * string)) (jobId : string)
    (st : JobStatus) : JobStatus :=
  fold_left
    (fun acc '(o, _, k) => if String.eqb k jobId then op_status o else acc)
    ops st.

(** The fields of a job no status operation writes. *)
Definition same_request (j j' : Job) : Prop :=
  job_id j' = job_id j /\ customerId j' = customerId j /\ workerId j' = workerId j /\
  job_category j' = job_category j /\ description j' = description j /\
  createdAt j' = createdAt j.

(** [earningsSummary] of the root component, as [(week, month)]. *)
Definition earningsSummary (myJobsAsWorker : list Job) : Z * Z :=
  let accepted :=
    Z.of_nat (List.length (filter (fun j => status_eqb (status j) Accepted) myJobsAsWorker)) in
  let base := accepted * 75 in
  (base, base * 4).

(** ** What a recorded answer looks like *)

(** The answer [v] is one the control of question [f] can give: yes or
    no for a boolean question, one of the listed options for a select
    question, a trimmed non-empty text for a free-text question. *)
Definition answer_fits (f : FaqItem) (v : AnswerValue) : Prop :=
  match faq_type f, v with
  | FaqBoolean, ABool _ => True
  | FaqSelect, AStr x => In x (nullish (options f) [])
  | FaqText, AStr x => x <> "" /\ Js.trim x = x
  | _, _ => False
  end.

Definition answers_ok (s : ChatState) : Prop :=
  NoDup (map fst (answers s)) /\
  forall k v, In (k, v) (answers s) ->
    exists f, In f (faqs (CATEGORY_BY_ID (category s))) /\ faq_id f = k /\ answer_fits f v.

(** What [trimStart] returns: the empty string, or a string that starts
    with a character that is not white space. *)
Definition trimStart_result_ok (t : string) : Prop :=
  t = "" \/ exists c r, t = String c r /\ Js.isWhite c = false.

(** ** Utilities *)

(** An argument of [classNames]: [string | false | null | undefined]. *)
Inductive ClassArg := ClassStr (s : string) | ClassFalse | ClassNull | ClassUndefined.

(** [Boolean(a)] *)
Definition Boolean (a : ClassArg) : bool :=
  match a with
  | ClassStr s => truthy s
  | _ => false
  end.

(** How [join] renders an element: [null] and [undefined] as the empty
    string, the others by [String]. *)
Definition class_string (a : ClassArg) : string :=
  match a with
  | ClassStr s => s
  | ClassFalse => "false"
  | ClassNull | ClassUndefined => ""
  end.

(** [list.filter(Boolean).join(' ')] *)
Definition classNames (l : list ClassArg) : string :=
  Js.join " " (map class_string (filter Boolean l)).

(** [randInt], with the value [rnd] that [Math.random()] returns. *)
Definition randInt (rnd : Q) (min max : Z) : Z :=
  Qfloor (rnd * inject_Z (max - min + 1)) + min.

(** [Math.round]: the nearest integer, a half going up. *)
Definition Math_round (x : Q) : Z := Qfloor (x + (1 # 2)).

(** The table [specialties] of [signInAsWorker]. *)
Definition specialties : list (string * list string) :=
  [ ("Plumber", ["plumbing"; "leak repair"; "drain cleaning"; "water heater"]);
    ("Electrician", ["wiring"; "breaker repair"; "lighting"; "outlets"]);
    ("Painter", ["painting"; "prep"; "interior"; "exterior"; "trim"]);
    ("Driver", ["driving"; "transport"; "delivery"; "airport runs"]);
    ("General", ["assembly"; "mounting"; "repair"; "install"]) ].

(** The [profile] literal of [signInAsWorker] for the user [uid], with the
    four random values in the order they are drawn.  [None] is the
    [TypeError] of reading a field of an undefined [pick]. *)
Definition seedWorkerProfile (uid : string) (r_pick r_rating r_jobs r_rate : Q)
  : option WorkerProfile :=
  match Js.arr_get specialties (randInt r_pick 0 (Z.of_nat (List.length specialties) - 1)) with
  | None => None
  | Some pick =>
      Some (mkWorker uid
              ("Worker " ++ String.substring 0 6 uid)
              "Nearby"
              (fst pick)
              "Skilled and reliable. Ready to help!"
              (inject_Z (Math_round ((4 + r_rating) * 10)) / 10)%Q
              (randInt r_jobs 5 120)
              true
              (snd pick)
              (inject_Z (randInt r_rate 30 90)))
  end.

(** ** Loading the signed-in user's profile *)

(** The private profile document: the [role] field and the worker fields. *)
Record ProfileDoc := mkProfileDoc {
  p_role : option string;
  p_data : WorkerDoc
}.

(** [loadUserProfile]: the value given to the [userProfile] signal for
    the snapshot of the profile document ([None] when it does not exist). *)
Definition loadUserProfile (uid : string) (snap : option ProfileDoc) : option UserProfile :=
  match snap with
  | Some doc =>
      let data := p_data doc in
      if match p_role doc with Some r => String.eqb r "Worker" | None => false end then
        Some (AsWorker
                (mkWorker uid
                   (or_string (d_name data) "Worker")
                   (or_string (d_location data) "Unknown")
                   (or_string (d_specialty data) "General")
                   (or_string (d_bio data) "")
                   (nullish (d_rating data) (47 # 10))
                   (nullish (d_jobsCompleted data) 0)
                   (nullish (d_available data) true)
                   (nullish (d_skills data) [])
                   (nullish (d_hourlyRate data) 50%Q)))
      else
        Some (AsCustomer
                (mkCustomer uid
                   (or_string (d_name data) "Customer")
                   (or_string (d_location data) "Unknown")))
  | None => None
  end.

(** A worker with another rating. *)
Definition worker_with_rating (r : Q) (w : WorkerProfile) : WorkerProfile :=
  mkWorker (w_id w) (w_name w) (w_location w) (specialty w) (bio w) r
           (jobsCompleted w) (available w) (skills w) (hourlyRate w).

(** ** Further samples *)

Definition sample_doc : WorkerDoc :=
  mkWorkerDoc (Some "Cy") (Some "Nearby") (Some "Plumber") None (Some (48 # 10))
              (Some 30) (Some true) (Some ["sink"; "Drain"]) (Some (45 # 1)).

Definition sample_directory : Directory :=
  mkDirectory true (Some (AsWorker sample_worker)) {[ "w3" := sample_doc ]} ∅.

Definition sample_ops : list (StatusOp * Z * string) :=
  [(OpAccept, 2, "j1"); (OpComplete, 3, "j1"); (OpCancel, 4, "j1")].

(** ** The ranker in double precision

    [scoreWorker] and [rankWorkers] once more, with the numbers of
    JavaScript: a score is an IEEE 754 binary64 value and every operation
    rounds to nearest, ties to even.  The fields of a worker are read as
    the code reads them: the count of matching skills is an integer, the
    rating is the double nearest to the stored fraction. *)

(** The double of an integer; exact below [2^53] in absolute value, as
    every count of skills is. *)
Definition double_of_Z (z : Z) : float :=
  if z <? 0 then (- PrimFloat.of_uint63 (Uint63.of_Z (- z)))%float
  else PrimFloat.of_uint63 (Uint63.of_Z z).

(** The double nearest to the fraction [n/d], for [n] and [d] below
    [2^53]: the division of two exact doubles is rounded once. *)
Definition double_of_Q (q : Q) : float :=
  (double_of_Z (Qnum q) / double_of_Z (Zpos (Qden q)))%float.

(** The literal [1.2]. *)
Definition double_1_2 : float := 0x1.3333333333333p+0%float.

Definition scoreWorker_double (s : ChatState) (kws : list string) (w : WorkerProfile)
    : float :=
  let skillMatch := double_of_Z (skillMatchOf kws w) in
  let specialtyBoost :=
    if String.eqb (specialty w) (cat_name (category s)) then 2%float else 0%float in
  let ratingScore := double_of_Q (rating w) in
  let availabilityBonus := if available w then 2%float else 0%float in
  (skillMatch * 3 + specialtyBoost + ratingScore * double_1_2
   + availabilityBonus)%float.

Record ScoredD := mkScoredD { swd : WorkerProfile; scd : float }.

(** The comparator [(a, b) => b.sc - a.sc]. *)
Definition byScoreDesc_double (a b : ScoredD) : float := (scd b - scd a)%float.

(** [sort] moves [a] behind [b] when the comparator's value is greater
    than zero; [NaN] counts as zero. *)
Definition positive_double (v : float) : bool := (0 <? v)%float.

Fixpoint sort_insert_double {A} (cmp : A -> A -> float) (x : A) (l : list A)
    : list A :=
  match l with
  | [] => [x]
  | y :: l' =>
      if positive_double (cmp x y) then y :: sort_insert_double cmp x l' else x :: l
  end.

Definition js_sort_double {A} (cmp : A -> A -> float) (l : list A) : list A :=
  fold_right (sort_insert_double cmp) [] l.

Definition rankWorkers_double (workers : list WorkerProfile) (s : ChatState)
    : list WorkerProfile :=
  let kws := rankKeywords s in
  map swd
    (firstn 3
       (js_sort_double byScoreDesc_double
          (map (fun w => mkScoredD w (scoreWorker_double s kws w)) workers))).

(** The score [rankWorkers] gives a worker in state [s], as a double. *)
Definition rankerScore_double (s : ChatState) (w : WorkerProfile) : float :=
  scoreWorker_double s (rankKeywords s) w.

Definition scoredOf_double (s : ChatState) (w : WorkerProfile) : ScoredD :=
  mkScoredD w (rankerScore_double s w).

(** The comparator sends [a] behind [b]. *)
Definition after_double (s : ChatState) (a b : WorkerProfile) : bool :=
  positive_double (rankerScore_double s b - rankerScore_double s a).

(** A comparator is consistent on the elements of a list when "behind" is
    asymmetric and "not behind" is transitive on them.  [sort] specifies
    its result for such a comparator only; a score that is [NaN] or two
    infinite scores break it. *)
Definition consistent {A} (cmp : A -> A -> float) (l : list A) : bool :=
  forallb (fun a =>
    forallb (fun b =>
      (negb (positive_double (cmp a b)) || negb (positive_double (cmp b a)))
      && forallb (fun c =>
           positive_double (cmp a b) || positive_double (cmp b c)
           || negb (positive_double (cmp a c))) l) l) l.

Definition comparator_consistent (s : ChatState) (ws : list WorkerProfile) : bool :=
  consistent byScoreDesc_double (map (scoredOf_double s) ws).

(** The sum of [scoreWorker] for [skillMatch] matching skills, a specialty
    that matches or not, a rating and an availability flag. *)
Definition score_double (skillMatch : Z) (sameSpecialty : bool) (r : Q)
    (isAvailable : bool) : float :=
  (double_of_Z skillMatch * 3 + (if sameSpecialty then 2 else 0)
   + double_of_Q r * double_1_2 + (if isAvailable then 2 else 0))%float.

(** The sum before the availability bonus is added. *)
Definition scoreBeforeBonus (s : ChatState) (w : WorkerProfile) : float :=
  (double_of_Z (skillMatchOf (rankKeywords s) w) * 3
   + (if String.eqb (specialty w) (cat_name (category s)) then 2 else 0)
   + double_of_Q (rating w) * double_1_2)%float.

(** The available score is strictly above the unavailable one, the
    comparator says so, and the difference is 2 up to [2^-40]. *)
Definition separated (skillMatch : Z) (sameSpecialty : bool) (r : Q) : bool :=
  let hi := score_double skillMatch sameSpecialty r true in
  let lo := score_double skillMatch sameSpecialty r false in
  positive_double (hi - lo)
  && (lo <? hi)%float
  && (PrimFloat.abs (hi - lo - 2) <? 0x1p-40)%float.

Definition Zrange (lo : Z) (n : nat) : list Z :=
  map (fun i => lo + Z.of_nat i) (seq 0 n).

(** Every count of matching skills from 0 to 50, every rating [k/d] from 0
    to 5 with [d] from 1 to 10, either specialty. *)
Definition separated_everywhere : bool :=
  forallb (fun n =>
    forallb (fun d =>
      forallb (fun k =>
        separated n true (k # Z.to_pos d) && separated n false (k # Z.to_pos d))
        (Zrange 0 (Z.to_nat (5 * d + 1))))
      (Zrange 1 10))
    (Zrange 0 51).

(** A plumber with a given rating and availability. *)
Definition plumber_rated (r : Q) (isAvailable : bool) : WorkerProfile :=
  mkWorker "w9" "Al" "Nearby" "Plumber" "" r 10
           isAvailable ["Valves"] 40.

(** Two workers whose exact scores are both 18/5: one rated 3, one rated
    1/2 with one matching skill. *)
Definition rated_three : WorkerProfile :=
  mkWorker "fa" "Fay" "Nearby" "Painter" "" (3 # 1) 4 false ["Walls"] 30.

Definition half_with_skill : WorkerProfile :=
  mkWorker "fb" "Flo" "Nearby" "Painter" "" (1 # 2) 4 false ["sink"] 30.

(** * Properties *)

(** ** Evaluations *)

Example splitW_minor_drip : Js.splitW (Js.toLowerCase "Minor drip") = ["minor"; "drip"].
Proof. reflexivity. Qed.

Example splitW_leading : Js.splitW (Js.toLowerCase "<1 year") = [""; "1"; "year"].
Proof. reflexivity. Qed.

Example splitW_empty : Js.splitW "" = [""].
Proof. reflexivity. Qed.

Example trim_spaces : Js.trim "  a b  " = "a b" /\ Js.trim "   " = "".
Proof. split; reflexivity. Qed.

Example detect_sink : detectCategory "My kitchen sink is leaking badly" = Plumber.
Proof. reflexivity. Qed.

Example detect_tie : detectCategory "leak near the outlet" = Plumber.
Proof. reflexivity. Qed.

Example detect_embedded : detectCategory "a scarf" = Driver.
Proof. reflexivity. Qed.

(** ** The catalog *)

Lemma CATEGORY_BY_ID_total (k : ServiceCategoryId) :
  CATEGORY_TABLE k = Some (CATEGORY_BY_ID k) /\ cd_id (CATEGORY_BY_ID k) = k.
Proof. destruct k; split; reflexivity. Qed.

Lemma faqs_nonempty (k : ServiceCategoryId) :
  (1 <= List.length (faqs (CATEGORY_BY_ID k)))%nat.
Proof. destruct k; vm_compute; lia. Qed.

Lemma cat_eqb_eq (a b : ServiceCategoryId) : cat_eqb a b = true <-> a = b.
Proof. destruct a, b; vm_compute; split; congruence. Qed.

(** ** The classifier *)

Section Classifier.

Variable lower : string.

Let score := keywordScore lower.

Lemma keywordScore_fold_nonneg (kws : list string) (acc : Z) :
  acc <= fold_left (fun a kw => a + (if Js.includes lower kw then 1 else 0)) kws acc.
Proof.
  revert acc; induction kws as [|kw kws IH]; intros acc; simpl; [lia|].
  specialize (IH (acc + (if Js.includes lower kw then 1 else 0))).
  destruct (Js.includes lower kw); lia.
Qed.

Lemma keywordScore_nonneg (c : CategoryDefinition) : 0 <= score c.
Proof. apply keywordScore_fold_nonneg. Qed.

(** The loop never replaces the best by a category that does not beat it. *)
Lemma detect_keeps (l : list CategoryDefinition) (b : Best) :
  (forall d, In d l -> score d <= best_score b) ->
  fold_left (detectStep lower) l b = b.
Proof.
  revert b; induction l as [|c l IH]; intros b Hle; simpl; [reflexivity|].
  assert (Hc : detectStep lower b c = b).
  { unfold detectStep. specialize (Hle c (or_introl eq_refl)).
    fold (score c). destruct (score c >? best_score b) eqn:E; [lia|reflexivity]. }
  rewrite Hc. apply IH. intros d Hd. apply Hle. now right.
Qed.

(** While every category seen scores below [n], so does the best. *)
Lemma detect_below (l : list CategoryDefinition) (b : Best) (n : Z) :
  best_score b < n ->
  (forall d, In d l -> score d < n) ->
  best_score (fold_left (detectStep lower) l b) < n.
Proof.
  revert b; induction l as [|c l IH]; intros b Hb Hlt; simpl; [assumption|].
  apply IH.
  - unfold detectStep. fold (score c).
    destruct (score c >? best_score b); simpl; [apply Hlt; now left|assumption].
  - intros d Hd. apply Hlt. now right.
Qed.

(** The loop ends on the first category that attains the highest count. *)
Lemma detect_first_max (pre post : list CategoryDefinition) (c : CategoryDefinition) (b : Best) :
  best_score b < score c ->
  (forall d, In d pre -> score d < score c) ->
  (forall d, In d post -> score d <= score c) ->
  fold_left (detectStep lower) (pre ++ c :: post)%list b = mkBest (cd_id c) (score c).
Proof.
  intros Hb Hpre Hpost.
  rewrite fold_left_app. simpl.
  pose proof (detect_below pre b (score c) Hb Hpre) as Hlt.
  set (b1 := fold_left (detectStep lower) pre b) in *.
  assert (Hc : detectStep lower b1 c = mkBest (cd_id c) (score c)).
  { unfold detectStep. fold (score c).
    destruct (score c >? best_score b1) eqn:E; [reflexivity|lia]. }
  rewrite Hc. apply detect_keeps. exact Hpost.
Qed.

End Classifier.

(** C4. [detectCategory] is a function of its text alone; the empty text,
    and any text in which no category has a keyword, is classified as
    [General]; and when the highest count is positive the result is the
    first category of the catalog, in its enumeration order, that attains
    it -- so of two categories tied on the highest count the earlier one
    wins, the later one never. *)
Theorem C4_detectCategory :
  (forall t1 t2, t1 = t2 -> detectCategory t1 = detectCategory t2) /\
  detectCategory "" = General /\
  (forall text,
      (forall c, In c CATEGORY_DEFS -> keywordScore (Js.toLowerCase text) c = 0) ->
      detectCategory text = General) /\
  (forall text pre c1 mid c2 post,
      CATEGORY_DEFS = (pre ++ c1 :: mid ++ c2 :: post)%list ->
      let score := keywordScore (Js.toLowerCase text) in
      0 < score c1 ->
      score c2 = score c1 ->
      (forall d, In d pre -> score d < score c1) ->
      (forall d, In d (mid ++ post)%list -> score d <= score c1) ->
      detectCategory text = cd_id c1 /\ detectCategory text <> cd_id c2).
Proof.
  split; [intros t1 t2 ->; reflexivity|].
  split; [reflexivity|].
  split.
  - intros text Hz. unfold detectCategory, detectLoop.
    rewrite detect_keeps; [reflexivity|].
    intros d Hd. rewrite (Hz d Hd). simpl. lia.
  - intros text pre c1 mid c2 post Hcat score Hpos Htie Hpre Hrest.
    assert (Hres : detectCategory text = cd_id c1).
    { unfold detectCategory, detectLoop. rewrite Hcat.
      rewrite (detect_first_max (Js.toLowerCase text) pre (mid ++ c2 :: post) c1).
      - simpl. fold (score c1). destruct (score c1 >? 0) eqn:E; [reflexivity|lia].
      - simpl. exact Hpos.
      - exact Hpre.
      - intros d Hd. apply in_app_or in Hd. destruct Hd as [Hd|[<-|Hd]].
        + apply Hrest. apply in_or_app. now left.
        + change (score c2 <= score c1). lia.
        + apply Hrest. apply in_or_app. now right. }
    split; [exact Hres|].
    rewrite Hres.
    (* identifiers of the catalog are pairwise distinct *)
    assert (Hnd : NoDup (map cd_id CATEGORY_DEFS)).
    { vm_compute. repeat constructor; simpl; intuition congruence. }
    rewrite Hcat in Hnd. rewrite map_app in Hnd. simpl in Hnd.
    apply NoDup_remove_2 in Hnd. intros Heq. apply Hnd.
    apply in_or_app. right. rewrite map_app. apply in_or_app. right.
    simpl. left. symmetry. exact Heq.
Qed.

(** The tie of C4 on the catalog: "leak" (Plumber) and "outlet"
    (Electrician) occur once each, and Plumber comes first. *)
Lemma C4_detectCategory_witness :
  detectCategory "leak near the outlet" = Plumber /\
  detectCategory "leak near the outlet" <> Electrician.
Proof.
  refine (proj2 (proj2 (proj2 C4_detectCategory)) "leak near the outlet"
            [] (CATEGORY_BY_ID Plumber) [] (CATEGORY_BY_ID Electrician)
            [CATEGORY_BY_ID Painter; CATEGORY_BY_ID Driver; CATEGORY_BY_ID General]
            eq_refl _ _ _ _).
  - vm_compute. reflexivity.
  - vm_compute. reflexivity.
  - intros d [].
  - intros d Hd. simpl in Hd.
    destruct Hd as [<-|[<-|[<-|[]]]]; vm_compute; congruence.
Defined.

(** ** Sorting by descending key *)

Lemma Qpositive_spec (q : Q) : Qpositive q = true <-> (0 < q)%Q.
Proof.
  unfold Qpositive, Qlt. simpl. rewrite Z.ltb_lt. lia.
Qed.

Lemma in_firstn {A} (n : nat) (l : list A) (x : A) : In x (firstn n l) -> In x l.
Proof.
  revert n; induction l as [|y l IH]; intros [|n]; simpl; try tauto.
  intros [->|H]; [now left|right; eauto].
Qed.

Section Sorting.

Context {A : Type} (key : A -> Q).

(** The comparator [(a, b) => key(b) - key(a)]. *)
Let cmp (a b : A) : Q := (key b - key a)%Q.

Lemma cmp_positive (x y : A) : Qpositive (cmp x y) = true <-> (key x < key y)%Q.
Proof.
  rewrite Qpositive_spec. unfold cmp. split; intros H.
  - apply Qlt_minus_iff. exact H.
  - apply Qlt_minus_iff in H. exact H.
Qed.

Lemma sort_insert_perm (x : A) (l : list A) :
  Permutation (sort_insert cmp x l) (x :: l).
Proof.
  induction l as [|y l IH]; simpl; [reflexivity|].
  destruct (Qpositive (cmp x y)); [|reflexivity].
  rewrite IH. apply perm_swap.
Qed.

Lemma sort_insert_descending (x : A) (l : list A) :
  descending key l -> descending key (sort_insert cmp x l).
Proof.
  unfold descending. induction 1 as [|y l Hl IH Hy]; simpl.
  - constructor; constructor.
  - destruct (Qpositive (cmp x y)) eqn:E.
    + constructor; [exact IH|].
      apply cmp_positive in E.
      rewrite Forall_forall. intros z Hz.
      apply (Permutation_in _ (sort_insert_perm x l)) in Hz.
      destruct Hz as [<-|Hz].
      * apply Qlt_le_weak. exact E.
      * rewrite Forall_forall in Hy. apply Hy. exact Hz.
    + assert (Hxy : (key y <= key x)%Q).
      { apply Qnot_lt_le. intros Hlt. apply cmp_positive in Hlt. congruence. }
      constructor; [constructor; assumption|].
      constructor; [exact Hxy|].
      rewrite Forall_forall in Hy |- *. intros z Hz.
      apply Qle_trans with (key y); [apply Hy; exact Hz|exact Hxy].
Qed.

Lemma js_sort_perm (l : list A) : Permutation (js_sort cmp l) l.
Proof.
  induction l as [|x l IH]; simpl; [reflexivity|].
  rewrite sort_insert_perm. now constructor.
Qed.

Lemma js_sort_descending (l : list A) : descending key (js_sort cmp l).
Proof.
  induction l as [|x l IH]; simpl; [constructor|].
  apply sort_insert_descending. exact IH.
Qed.

Lemma js_sort_length (l : list A) : List.length (js_sort cmp l) = List.length l.
Proof. apply Permutation_length, js_sort_perm. Qed.

Lemma descending_firstn (n : nat) (l : list A) :
  descending key l -> descending key (firstn n l).
Proof.
  unfold descending. intros H. revert n.
  induction H as [|y l Hl IH Hy]; intros [|n]; simpl; try constructor.
  - apply IH.
  - rewrite Forall_forall in Hy |- *. intros z Hz. apply Hy.
    eapply in_firstn; eauto.
Qed.

End Sorting.

Lemma descending_map {A B} (f : A -> B) (kb : B -> Q) (ka : A -> Q) (l : list A) :
  (forall x, In x l -> (kb (f x) == ka x)%Q) ->
  descending ka l -> descending kb (map f l).
Proof.
  unfold descending. intros Hk H.
  induction H as [|y l Hl IH Hy]; simpl; [constructor|].
  constructor.
  - apply IH. intros x Hx. apply Hk. now right.
  - rewrite Forall_forall in Hy |- *. intros z Hz.
    apply in_map_iff in Hz. destruct Hz as [x [<- Hx]].
    rewrite (Hk x (or_intror Hx)), (Hk y (or_introl eq_refl)).
    apply Hy. exact Hx.
Qed.

(** ** The ranker *)

Lemma arr_includes_In (l : list string) (x : string) :
  Js.arr_includes l x = true <-> In x l.
Proof.
  unfold Js.arr_includes. rewrite existsb_exists. split.
  - intros [y [Hy E]]. apply String.eqb_eq in E. now subst.
  - intros H. exists x. split; [exact H|apply String.eqb_refl].
Qed.

Lemma rankKeywords_spec (s : ChatState) (x : string) :
  In x (rankKeywords s) <-> spec_keywordSet (category s) (answers s) x.
Proof.
  unfold rankKeywords, spec_keywordSet. rewrite in_app_iff, in_flat_map.
  split; (intros [H|H]; [now left|right]).
  - destruct H as [v [Hv Hx]]. apply in_map_iff in Hv.
    destruct Hv as [[k v'] [E Hkv]]. simpl in E. subst v'.
    destruct v as [v|b]; simpl in Hx; [|contradiction].
    exists k, v. split; assumption.
  - destruct H as [k [v [Hkv Hx]]]. exists (AStr v). split; [|exact Hx].
    apply in_map_iff. exists (k, AStr v). split; [reflexivity|exact Hkv].
Qed.

Lemma count_fold (P : string -> bool) (l : list string) (acc : Z) :
  fold_left (fun a sk => a + (if P sk then 1 else 0)) l acc
  = acc + Z.of_nat (List.length (filter P l)).
Proof.
  revert acc; induction l as [|x l IH]; intros acc; simpl; [lia|].
  rewrite IH. destruct (P x); simpl List.length; lia.
Qed.

Lemma skillMatchOf_spec (kws : list string) (w : WorkerProfile) :
  skillMatchOf kws w = spec_skillMatch (Js.arr_includes kws) w.
Proof.
  unfold skillMatchOf, spec_skillMatch.
  rewrite (count_fold (fun sk => Js.arr_includes kws (Js.toLowerCase sk))). lia.
Qed.


(** The end-to-end scenario of the specification: only "plumbing" and
    "leak repair" are offered, neither is a keyword or a piece of an
    answer, and the plumber still comes first by the specialty boost. *)
Example score_scenario :
  let s := mkState true StepFaqs Plumber "My kitchen sink is leaking badly" 3
             [("location", AStr "Kitchen"); ("severity", AStr "Flooding");
              ("shutoff", ABool true); ("age", AStr "1-3 years")] [] in
  let p := mkWorker "p" "P" "" "Plumber" "" (48 # 10) 0 true ["plumbing"; "leak repair"] 50 in
  let e := mkWorker "e" "E" "" "Electrician" "" (49 # 10) 0 true ["wiring"] 50 in
  rankKeywords s = ["leak"; "pipe"; "sink"; "drain"; "toilet"; "water heater"; "clog";
                    "faucet"; "sewer"; "kitchen"; "flooding"; "1"; "3"; "years"] /\
  (rankerScore s p == 976 # 100)%Q /\ (rankerScore s e == 788 # 100)%Q /\
  map w_id (rankWorkers [e; p] s) = ["p"; "e"].
Proof. vm_compute. repeat split; reflexivity. Qed.

Lemma rankWorkers_unfold (ws : list WorkerProfile) (s : ChatState) :
  rankWorkers ws s = map sw (firstn 3 (js_sort byScoreDesc (map (scoredOf s) ws))).
Proof. reflexivity. Qed.

(** Every entry of the sorted array still carries the score of its worker. *)
Lemma sorted_scores (ws : list WorkerProfile) (s : ChatState) (x : Scored) :
  In x (js_sort byScoreDesc (map (scoredOf s) ws)) ->
  In (sw x) ws /\ x = scoredOf s (sw x).
Proof.
  intros H. apply (Permutation_in _ (js_sort_perm sc _)) in H.
  apply in_map_iff in H. destruct H as [w [<- Hw]]. split; [exact Hw|reflexivity].
Qed.

Lemma rankWorkers_length (ws : list WorkerProfile) (s : ChatState) :
  (List.length (rankWorkers ws s) <= Nat.min 3 (List.length ws))%nat.
Proof.
  rewrite rankWorkers_unfold, length_map, length_firstn.
  rewrite (js_sort_length sc), length_map. lia.
Qed.

Lemma rankWorkers_descending (ws : list WorkerProfile) (s : ChatState) :
  descending (rankerScore s) (rankWorkers ws s).
Proof.
  rewrite rankWorkers_unfold.
  apply descending_map with (ka := sc).
  - intros x Hx. apply in_firstn in Hx. apply sorted_scores in Hx.
    destruct Hx as [_ Hx]. rewrite Hx at 2. reflexivity.
  - apply descending_firstn. apply (js_sort_descending sc).
Qed.

Lemma bind_some {A B} (c : M A) (k : A -> M B) (h : Store) (x : A) (h' : Store) :
  c h = Some (x, h') -> bind c k h = k x h'.
Proof. unfold bind. intros ->. reflexivity. Qed.

(** What [rankWorkers_st] does to the store: it returns the address of a
    new array holding [rankWorkers ws s], and every array that was in the
    store before the call -- the roster among them -- is as it was. *)
Lemma rankWorkers_st_spec (h : Store) (p : nat) (ws : list WorkerProfile) (s : ChatState) :
  h !! p = Some (ArrW ws) ->
  exists r h',
    rankWorkers_st p s h = Some (r, h') /\
    h' !! r = Some (ArrW (rankWorkers ws s)) /\
    (forall q, (q < List.length h)%nat -> h' !! q = h !! q).
Proof.
  intros Hp.
  set (n := List.length h).
  set (scored := map (scoredOf s) ws).
  set (sorted := js_sort byScoreDesc scored).
  set (h1 := (h ++ [ArrW ws])%list).
  set (h2 := (h1 ++ [ArrS scored])%list).
  set (h3 := <[S n := ArrS sorted]> h2).
  set (h4 := (h3 ++ [ArrS (firstn 3 sorted)])%list).
  set (h5 := (h4 ++ [ArrW (map sw (firstn 3 sorted))])%list).
  assert (L1 : List.length h1 = S n) by (unfold h1; rewrite length_app; simpl; lia).
  assert (L2 : List.length h2 = S (S n)) by (unfold h2; rewrite length_app; simpl; lia).
  assert (L3 : List.length h3 = S (S n)) by (unfold h3; rewrite length_insert; exact L2).
  assert (L4 : List.length h4 = S (S (S n))) by (unfold h4; rewrite length_app; simpl; lia).
  assert (R1 : h1 !! n = Some (ArrW ws)).
  { unfold h1, n. apply list_lookup_middle. reflexivity. }
  assert (R2 : h2 !! S n = Some (ArrS scored)).
  { unfold h2. apply list_lookup_middle. symmetry. exact L1. }
  assert (R3 : h3 !! S n = Some (ArrS sorted)).
  { unfold h3. apply list_lookup_insert_eq. lia. }
  assert (R4 : h4 !! S (S n) = Some (ArrS (firstn 3 sorted))).
  { unfold h4. apply list_lookup_middle. symmetry. exact L3. }
  exists (S (S (S n))), h5. split; [|split].
  - unfold rankWorkers_st.
    rewrite (bind_some _ _ h n h1)
      by (unfold spreadW, bind, readW, alloc; rewrite Hp; reflexivity).
    rewrite (bind_some _ _ h1 (S n) h2)
      by (unfold mapWS, bind, readW, alloc; rewrite R1, L1; reflexivity).
    rewrite (bind_some _ _ h2 (S n) h3)
      by (unfold sortS, bind, readS; rewrite R2; reflexivity).
    rewrite (bind_some _ _ h3 (S (S n)) h4)
      by (unfold sliceS, bind, readS, alloc; rewrite R3, L3; reflexivity).
    unfold mapSW, bind, readS, alloc. rewrite R4, L4. reflexivity.
  - unfold h5. rewrite rankWorkers_unfold. apply list_lookup_middle.
    symmetry. exact L4.
  - intros q Hq. fold n in Hq.
    unfold h5. rewrite lookup_app_l by lia.
    unfold h4. rewrite lookup_app_l by lia.
    unfold h3. rewrite list_lookup_insert_ne by lia.
    unfold h2. rewrite lookup_app_l by lia.
    unfold h1. rewrite lookup_app_l by lia.
    reflexivity.
Qed.


Example sample_ranking :
  map w_id (rankWorkers sample_roster sample_state) = ["w3"; "w2"; "w1"].
Proof. reflexivity. Qed.


Lemma nth_error_firstn_some {A} (n i : nat) (l : list A) (x : A) :
  nth_error (firstn n l) i = Some x <-> (i < n)%nat /\ nth_error l i = Some x.
Proof.
  revert n i; induction l as [|y l IH]; intros [|n] [|i]; simpl;
    try (split; [discriminate|intros [H1 H2]; (discriminate || lia)]).
  - split; [intros H; split; [lia|exact H]|tauto].
  - rewrite IH. split; intros [H1 H2]; (split; [lia|exact H2]).
Qed.


(** ** The wizard operations *)

Lemma arr_get_0 {A} (l : list A) :
  (1 <= List.length l)%nat -> exists x, Js.arr_get l 0 = Some x.
Proof. destruct l as [|x l]; simpl; [lia|]. intros _. exists x. reflexivity. Qed.

(** [currentFaq()] is never [undefined]: every questionnaire has a first
    question. *)
Lemma currentFaq_defined (m : AiModal) : exists f, currentFaq m = Some f.
Proof.
  unfold currentFaq.
  destruct (Js.arr_get (faqsOf m) (faqIndex (state m))) as [f|]; [now exists f|].
  apply arr_get_0. apply faqs_nonempty.
Qed.

Lemma get_set_answer_eq (a : Answers) (fid : string) (v : AnswerValue) :
  get_answer (set_answer a fid v) fid = Some v.
Proof.
  induction a as [|[k x] a IH]; simpl.
  - rewrite String.eqb_refl. reflexivity.
  - destruct (String.eqb k fid) eqn:E; simpl; rewrite E; [reflexivity|exact IH].
Qed.

Lemma get_set_answer_ne (a : Answers) (fid k : string) (v : AnswerValue) :
  k <> fid -> get_answer (set_answer a fid v) k = get_answer a k.
Proof.
  intros Hne. induction a as [|[k' x] a IH]; simpl.
  - destruct (String.eqb_spec fid k); [congruence|reflexivity].
  - destruct (String.eqb_spec k' fid) as [->|E]; simpl.
    + destruct (String.eqb_spec fid k); [congruence|reflexivity].
    + destruct (String.eqb_spec k' k); [reflexivity|exact IH].
Qed.

(** A new key goes last; a key already present keeps its place. *)
Lemma set_answer_order (a : Answers) (fid : string) (v : AnswerValue) :
  (get_answer a fid = None -> set_answer a fid v = (a ++ [(fid, v)])%list) /\
  (get_answer a fid <> None -> map fst (set_answer a fid v) = map fst a).
Proof.
  induction a as [|[k x] a [IH1 IH2]]; simpl.
  - split; [reflexivity|congruence].
  - destruct (String.eqb k fid); simpl.
    + split; [discriminate|reflexivity].
    + split; intros H; [rewrite IH1|rewrite IH2]; auto.
Qed.

(** C10. [answerBoolean] and [answerSelect] return normally and change the
    answers only: the entry under the current question's identifier is set
    to the value given, every other entry, the open flag, the step, the
    category, the problem text, the index and the ranked list stay. *)
Theorem C10_answer_frame (m : AiModal) (b : bool) (v : string) :
  exists f mb ms,
    currentFaq m = Some f /\
    answerBoolean b m = Some mb /\
    answerSelect v m = Some ms /\
    answer_frame m mb (faq_id f) (ABool b) /\
    answer_frame m ms (faq_id f) (AStr v).
Proof.
  destruct (currentFaq_defined m) as [f Hf].
  unfold answerBoolean, answerSelect. rewrite Hf.
  eexists f, _, _. split; [reflexivity|]. split; [reflexivity|]. split; [reflexivity|].
  unfold answer_frame; simpl.
  split; repeat (split; [reflexivity|]); split;
    (apply get_set_answer_eq || (intros k Hk; apply get_set_answer_ne; exact Hk)).
Qed.

Example general_at_task_reached :
  run [EvOpen; EvDraft "help"; EvSubmit; EvAnswerText "   "] initialModal
  = Some (general_at_task "   ").
Proof. reflexivity. Qed.

(** With a blank pending answer on a free-text question, [nextFaq] is not
    the identity: the index moves from 0 to 1. *)
Lemma C2_counterexample :
  let m := general_at_task "   " in
  step (state m) = StepFaqs /\
  (exists f, currentFaq m = Some f /\ faq_type f = FaqText) /\
  Js.trim (currentAnswerText m) = "" /\
  nextFaq [] m <> Some m /\
  (exists m', nextFaq [] m = Some m' /\
              faqIndex (state m) = 0 /\ faqIndex (state m') = 1).
Proof.
  simpl. split; [reflexivity|]. split.
  - eexists. split; reflexivity.
  - split; [reflexivity|]. split; [vm_compute; congruence|].
    eexists. split; [reflexivity|]. split; reflexivity.
Qed.

Lemma recordText_blank (f : FaqItem) (m : AiModal) :
  Js.trim (currentAnswerText m) = "" -> recordText f m = m.
Proof.
  unfold recordText. intros ->. simpl. rewrite andb_false_r. reflexivity.
Qed.

(** C2, as the code has it.  With a blank pending answer on a free-text
    question [nextFaq] returns normally and records nothing, and it
    advances all the same: below the last question the index goes up by
    one and nothing else changes; on the last question the step becomes
    showing-results and the ranking is stored, the index staying. *)
Theorem C2_blank_text_advances (ws : list WorkerProfile) (m : AiModal) (f : FaqItem) :
  step (state m) = StepFaqs ->
  currentFaq m = Some f ->
  faq_type f = FaqText ->
  Js.trim (currentAnswerText m) = "" ->
  let last := Z.of_nat (List.length (faqsOf m)) - 1 in
  exists m',
    nextFaq ws m = Some m' /\
    answers (state m') = answers (state m) /\
    currentAnswerText m' = currentAnswerText m /\
    ((faqIndex (state m) < last /\
      state m' = with_faqIndex (faqIndex (state m) + 1) (state m)) \/
     (last <= faqIndex (state m) /\
      state m' = with_results (rankWorkers ws (state m)) (state m))).
Proof.
  intros Hstep Hf Hty Hblank last.
  unfold nextFaq. rewrite Hf, (recordText_blank f m Hblank). fold last.
  destruct (faqIndex (state m) <? last) eqn:E.
  - eexists. split; [reflexivity|]. split; [reflexivity|]. split; [reflexivity|].
    left. split; [lia|reflexivity].
  - eexists. split; [reflexivity|]. split; [reflexivity|]. split; [reflexivity|].
    right. split; [lia|reflexivity].
Qed.

Lemma C2_blank_text_advances_witness :
  exists m',
    nextFaq [] (general_at_task "   ") = Some m' /\
    answers (state m') = [] /\
    currentAnswerText m' = "   " /\
    ((0 < 2 /\ state m' = with_faqIndex (0 + 1) (state (general_at_task "   "))) \/
     (2 <= 0 /\
      state m' = with_results (rankWorkers [] (state (general_at_task "   ")))
                   (state (general_at_task "   ")))).
Proof.
  exact (C2_blank_text_advances [] (general_at_task "   ")
           (mkFaq "task" FaqText "Briefly describe the task" None)
           eq_refl eq_refl eq_refl eq_refl).
Defined.

(** ** Submitting the problem *)

Lemma in_step_true (st : Step) (m : AiModal) :
  in_step st m = true -> isOpen (state m) = true /\ step (state m) = st.
Proof.
  unfold in_step. intros H. apply andb_true_iff in H. destruct H as [H1 H2].
  split; [exact H1|]. destruct (step (state m)), st; simpl in H2; congruence.
Qed.

Lemma enabled_offered (m : AiModal) (e : Event) (st : Step) :
  enabled m e = true -> offered_in e = Some st ->
  isOpen (state m) = true /\ step (state m) = st.
Proof.
  intros Hen Hoff. apply in_step_true.
  destruct e; simpl in Hoff; try discriminate; injection Hoff as <-;
    cbn [enabled] in Hen;
    first [ exact Hen
          | apply andb_true_iff in Hen; destruct Hen as [Hen _]; exact Hen
          | apply andb_true_iff in Hen; destruct Hen as [Hen _];
            apply andb_true_iff in Hen; destruct Hen as [Hen _]; exact Hen ].
Qed.

(** [submitProblem] moves to the questionnaire on a draft that is blank
    after trimming. *)
Lemma C3_counterexample :
  let m := mkModal (freshState true) "   " "" in
  step (state m) = StepStart /\
  enabled m EvSubmit = true /\
  Js.trim (draftProblem m) = "" /\
  step (state (submitProblem m)) = StepFaqs.
Proof. repeat split. Qed.

(** C3, as the code has it.  Among the steps the template offers, only
    submitting the problem leads from collecting-problem to
    answering-faqs, and it does so for every draft, blank or not.  Its
    effects: the problem is the trimmed draft, the category is the
    classifier's result on it, the index is 0, the answers are empty and
    the pending answer text is cleared; the open flag, the ranked list and
    the draft stay. *)
Theorem C3_submitProblem (m : AiModal) :
  submitProblem m
  = mkModal
      (mkState (isOpen (state m)) StepFaqs
               (detectCategory (Js.trim (draftProblem m)))
               (Js.trim (draftProblem m)) 0 [] (ranked (state m)))
      (draftProblem m) "" /\
  (forall e m',
      wizard_step m e m' ->
      step (state m) = StepStart ->
      step (state m') = StepFaqs ->
      e = EvSubmit /\ m' = submitProblem m).
Proof.
  split; [reflexivity|].
  intros e m' [Hen Hfire] Hs Hs'.
  assert (Hoff : forall st, offered_in e = Some st -> step (state m) = st).
  { intros st Hst. apply (enabled_offered m e st Hen Hst). }
  destruct e; simpl in Hfire;
    try (injection Hfire as <-; simpl in Hs'; congruence);
    try (specialize (Hoff StepFaqs eq_refl); congruence).
  injection Hfire as <-. split; reflexivity.
Qed.

Lemma C3_submitProblem_witness :
  EvSubmit = EvSubmit /\
  mkModal (mkState true StepFaqs Plumber "My sink leaks" 0 [] []) " My sink leaks " ""
  = submitProblem (mkModal (freshState true) " My sink leaks " "").
Proof.
  exact (proj2 (C3_submitProblem (mkModal (freshState true) " My sink leaks " ""))
           EvSubmit
           (mkModal (mkState true StepFaqs Plumber "My sink leaks" 0 [] [])
                    " My sink leaks " "")
           (conj eq_refl eq_refl) eq_refl eq_refl).
Defined.

(** ** The invariant of the wizard *)

Lemma lastFaq_nonneg (s : ChatState) : 0 <= lastFaq s.
Proof. unfold lastFaq. pose proof (faqs_nonempty (category s)). lia. Qed.

(** The score reads the category and the answers of the state only. *)
Lemma rankerScore_ext (s s' : ChatState) :
  category s' = category s -> answers s' = answers s ->
  rankerScore s' = rankerScore s.
Proof.
  intros Hc Ha. unfold rankerScore, scoreWorker, rankKeywords.
  rewrite Hc, Ha. reflexivity.
Qed.

Lemma no_ranking_yet (s : ChatState) :
  wizard_inv s -> step s <> StepResults -> ranked s = [].
Proof.
  intros [_ [H _]] Hs. destruct (ranked s) as [|w l]; [reflexivity|].
  exfalso. apply Hs, H. discriminate.
Qed.

(** A state with no ranking satisfies the invariant once its index is in
    range. *)
Lemma wizard_inv_unranked (s : ChatState) :
  0 <= faqIndex s <= lastFaq s -> ranked s = [] -> wizard_inv s.
Proof.
  intros Hi Hr. unfold wizard_inv. rewrite Hr.
  split; [exact Hi|]. split; [congruence|]. split; [simpl; lia|constructor].
Qed.

Lemma wizard_inv_close (s : ChatState) : wizard_inv s -> wizard_inv (with_isOpen false s).
Proof.
  intros [Hi [Hr [Hl Hd]]]. unfold wizard_inv. simpl.
  split; [exact Hi|]. split; [exact Hr|]. split; [exact Hl|].
  rewrite (rankerScore_ext s (with_isOpen false s)) by reflexivity. exact Hd.
Qed.

Lemma recordText_state (f : FaqItem) (m : AiModal) :
  let s1 := state (recordText f m) in
  isOpen s1 = isOpen (state m) /\ step s1 = step (state m) /\
  category s1 = category (state m) /\ faqIndex s1 = faqIndex (state m) /\
  ranked s1 = ranked (state m).
Proof.
  unfold recordText.
  destruct (is_text f && truthy (Js.trim (currentAnswerText m))); simpl; tauto.
Qed.

Lemma wizard_step_inv (m m' : AiModal) (e : Event) :
  wizard_inv (state m) -> wizard_step m e m' -> wizard_inv (state m').
Proof.
  intros Hinv [Hen Hfire].
  assert (Hoff : forall st, offered_in e = Some st -> step (state m) = st).
  { intros st Hst. apply (enabled_offered m e st Hen Hst). }
  destruct e; simpl in Hfire.
  - (* open *)
    injection Hfire as <-. simpl. apply wizard_inv_unranked; [|reflexivity].
    vm_compute. split; congruence.
  - (* close *)
    injection Hfire as <-. apply wizard_inv_close. exact Hinv.
  - (* typing the problem *)
    injection Hfire as <-. exact Hinv.
  - (* submit *)
    injection Hfire as <-. specialize (Hoff StepStart eq_refl).
    apply wizard_inv_unranked.
    + simpl. split; [lia|]. apply lastFaq_nonneg.
    + simpl. apply no_ranking_yet; [exact Hinv|congruence].
  - (* typing an answer *)
    injection Hfire as <-. exact Hinv.
  - (* yes / no *)
    specialize (Hoff StepFaqs eq_refl).
    unfold answerBoolean in Hfire. destruct (currentFaq m); [|discriminate].
    injection Hfire as <-. apply wizard_inv_unranked; simpl.
    + apply Hinv.
    + apply no_ranking_yet; [exact Hinv|congruence].
  - (* an option *)
    specialize (Hoff StepFaqs eq_refl).
    unfold answerSelect in Hfire. destruct (currentFaq m); [|discriminate].
    injection Hfire as <-. apply wizard_inv_unranked; simpl.
    + apply Hinv.
    + apply no_ranking_yet; [exact Hinv|congruence].
  - (* back *)
    specialize (Hoff StepFaqs eq_refl).
    injection Hfire as <-. apply wizard_inv_unranked; simpl.
    + destruct Hinv as [Hi _]. unfold lastFaq in *. simpl. lia.
    + apply no_ranking_yet; [exact Hinv|congruence].
  - (* next *)
    specialize (Hoff StepFaqs eq_refl).
    unfold nextFaq in Hfire. destruct (currentFaq m) as [f|]; [|discriminate].
    destruct (recordText_state f m) as [_ [_ [Hc [Hi Hr]]]].
    set (m1 := recordText f m) in *.
    assert (Hlast : lastFaq (state m1) = lastFaq (state m))
      by (unfold lastFaq; rewrite Hc; reflexivity).
    change (Z.of_nat (List.length (faqsOf m1)) - 1) with (lastFaq (state m1)) in Hfire.
    destruct (faqIndex (state m1) <? lastFaq (state m1)) eqn:E; injection Hfire as <-.
    + apply wizard_inv_unranked; simpl.
      * destruct Hinv as [Hidx _].
        change (0 <= faqIndex (state m1) + 1 <= lastFaq (state m1)). lia.
      * rewrite Hr. apply no_ranking_yet; [exact Hinv|congruence].
    + unfold wizard_inv. simpl.
      split; [change (0 <= faqIndex (state m1) <= lastFaq (state m1));
              rewrite Hi, Hlast; apply Hinv|].
      split; [reflexivity|].
      split; [pose proof (rankWorkers_length workers (state m1)); lia|].
      rewrite (rankerScore_ext (state m1)) by reflexivity.
      apply rankWorkers_descending.
  - (* book *)
    injection Hfire as <-. apply wizard_inv_close. exact Hinv.
Qed.


Lemma reachable_run (es : list Event) (m m' : AiModal) :
  reachable m -> run es m = Some m' -> reachable m'.
Proof.
  revert m; induction es as [|e es IH]; intros m Hm Hrun; simpl in Hrun.
  - injection Hrun as <-. exact Hm.
  - destruct (enabled m e) eqn:Hen; [|discriminate].
    destruct (fire e m) as [m1|] eqn:Hf; [|discriminate].
    apply (IH m1); [|exact Hrun].
    apply (reach_step m e m1 Hm). split; assumption.
Qed.


(** Outside the template the guard on the step matters: [submitProblem]
    applied to a state that shows results keeps the ranked list. *)
Example submitProblem_keeps_ranked :
  let m := mkModal (with_results (rankWorkers sample_roster sample_state) sample_state) "" "" in
  enabled m EvSubmit = false /\
  step (state (submitProblem m)) = StepFaqs /\
  List.length (ranked (state (submitProblem m))) = 3%nat.
Proof. repeat split. Qed.

(** ** Booking *)

Lemma append_empty_r (x : string) : x ++ "" = x.
Proof.
  induction x as [|c x IH]; [reflexivity|].
  change (String c (x ++ "") = String c x). now rewrite IH.
Qed.

Lemma append_assoc (x y z : string) : (x ++ y) ++ z = x ++ (y ++ z).
Proof.
  induction x as [|c x IH]; [reflexivity|].
  change (String c ((x ++ y) ++ z) = String c (x ++ (y ++ z))). now rewrite IH.
Qed.

Lemma join_cons (sep x : string) (l : list string) :
  Js.join sep (x :: l) = x ++ concat_strings (map (fun y => sep ++ y) l).
Proof.
  revert x; induction l as [|y l IH]; intros x.
  - simpl. symmetry. apply append_empty_r.
  - change (Js.join sep (x :: y :: l)) with (x ++ sep ++ Js.join sep (y :: l)).
    rewrite IH. simpl. rewrite append_assoc. reflexivity.
Qed.

Lemma bookDescription_spec (s : ChatState) : bookDescription s = spec_description s.
Proof.
  unfold bookDescription, spec_description. rewrite join_cons, map_map. reflexivity.
Qed.

(** C6. Booking from the wizard builds the description from the problem
    text followed by every answer as [key: value] (a boolean as [true] or
    [false]), in the order of the answers, joined by [" | "]; the answers
    are in insertion order, a key answered again keeping its place.  With
    a signed-in user and a store, the job written has that description,
    the wizard's category, the worker's identifier and status [Pending];
    the wizard is closed. *)
Theorem C6_book (newId : string) (now : Z) (worker : WorkerProfile)
    (svc : FirebaseService) (m : AiModal) :
  let s := state m in
  bookDescription s = spec_description s /\
  String_of (ABool true) = "true" /\ String_of (ABool false) = "false" /\
  (forall x, String_of (AStr x) = x) /\
  (forall a fid v,
      (get_answer a fid = None -> set_answer a fid v = (a ++ [(fid, v)])%list) /\
      (get_answer a fid <> None -> map fst (set_answer a fid v) = map fst a)) /\
  snd (book newId now worker svc m) = close m /\
  (forall uid jobs,
      currentFirebaseUser svc = Some uid -> db svc = Some jobs ->
      exists j,
        db (fst (book newId now worker svc m)) = Some (<[newId := j]> jobs) /\
        status j = Pending /\
        description j = spec_description s /\
        job_category j = category s /\
        workerId j = w_id worker /\
        customerId j = uid).
Proof.
  intros s.
  split; [apply bookDescription_spec|].
  split; [reflexivity|]. split; [reflexivity|]. split; [reflexivity|].
  split; [intros a fid v; apply set_answer_order|].
  split; [reflexivity|].
  intros uid jobs Hu Hdb. unfold book, createJobForWorker. simpl.
  rewrite Hu, Hdb. eexists. split; [reflexivity|]. simpl.
  split; [reflexivity|]. split; [apply bookDescription_spec|].
  repeat split.
Qed.

Example sample_description :
  bookDescription (state sample_results)
  = "My kitchen sink is leaking badly | location: Kitchen | severity: Flooding | shutoff: true | age: 1-3 years".
Proof. reflexivity. Qed.

Lemma C6_book_witness :
  exists j,
    db (fst (book "job1" 7 sample_worker sample_service sample_results))
    = Some (<[ "job1" := j ]> ∅) /\
    status j = Pending /\
    description j = spec_description (state sample_results) /\
    job_category j = Plumber /\
    workerId j = "w3" /\
    customerId j = "u1".
Proof.
  exact (proj2 (proj2 (proj2 (proj2 (proj2 (proj2
           (C6_book "job1" 7 sample_worker sample_service sample_results))))))
           "u1" ∅ eq_refl eq_refl).
Defined.

(** ** Job status *)

(** The operations do not look at the status they replace: a job is
    canceled from [Accepted], accepted from [Completed], and completed
    from [Pending]. *)
Lemma C8_counterexample :
  (statusOf (service_with Accepted) "j1" = Some Accepted /\
   exists svc', cancelJob 2 "j1" (service_with Accepted) = Some svc' /\
                statusOf svc' "j1" = Some Canceled) /\
  (statusOf (service_with Completed) "j1" = Some Completed /\
   exists svc', acceptJob 2 "j1" (service_with Completed) = Some svc' /\
                statusOf svc' "j1" = Some Accepted) /\
  (statusOf (service_with Pending) "j1" = Some Pending /\
   exists svc', completeJob 2 "j1" (service_with Pending) = Some svc' /\
                statusOf svc' "j1" = Some Completed).
Proof.
  repeat split; try reflexivity; eexists; (split; [reflexivity|reflexivity]).
Qed.

Lemma updateDoc_spec (jobs : gmap string Job) (jobId : string) (j : Job)
    (st : JobStatus) (now : Z) :
  jobs !! jobId = Some j ->
  exists jobs',
    updateDoc jobs jobId st now = Some jobs' /\
    jobs' !! jobId
    = Some (mkJob (job_id j) (customerId j) (workerId j) (job_category j)
                  (description j) st (createdAt j) now) /\
    (forall k, k <> jobId -> jobs' !! k = jobs !! k).
Proof.
  intros Hj. unfold updateDoc. rewrite Hj. eexists. split; [reflexivity|]. split.
  - apply lookup_insert_eq.
  - intros k Hk. apply lookup_insert_ne. congruence.
Qed.

Lemma rendered_status_handler (myJobsAsCustomer myJobsAsWorker : list Job)
    (h : Handler) :
  In h (hiredTabHandlers myJobsAsCustomer ++ jobsTabHandlers myJobsAsWorker) ->
  exists j,
    status j = Pending /\
    ((h = H_cancelJob (job_id j) /\ In j myJobsAsCustomer) \/
     (h = H_acceptJob (job_id j) /\ In j myJobsAsWorker)).
Proof.
  intros Hin. apply in_app_or in Hin. destruct Hin as [Hin | Hin].
  - unfold hiredTabHandlers in Hin. apply in_flat_map in Hin.
    destruct Hin as [j [Hj Hh]]. exists j.
    destruct (status j) eqn:Hst; simpl in Hh; try contradiction.
    destruct Hh as [Hh | []]. split; [reflexivity|]. left. split; [congruence | exact Hj].
  - unfold jobsTabHandlers in Hin. apply in_map_iff in Hin.
    destruct Hin as [j [Hh Hj]]. exists j.
    unfold pendingWorkerJobs in Hj. apply filter_In in Hj. destruct Hj as [Hj Hst].
    split; [destruct (status j); simpl in Hst; congruence|].
    right. split; [congruence | exact Hj].
Qed.

(** C8, as the code has it.  [cancelJob], [acceptJob] and [completeJob]
    set the status of a stored job to [Canceled], [Accepted] and
    [Completed] from any status; without a store they do nothing.  The
    order of the statuses is kept by the screens only.  No event binding
    of the templates reaches [completeJob], and [cancelJob] and
    [acceptJob] are reached from the Cancel and the Accept button only.
    A Cancel button is rendered exactly for the jobs of
    [myJobsAsCustomer] listed as [Pending], an Accept button exactly for
    the jobs of [myJobsAsWorker] listed as [Pending]; when the lists
    agree with the store, a click on such a button moves that job from
    [Pending] to [Canceled] or to [Accepted] and leaves the other jobs
    alone.  A job the program constructs has status [Pending]. *)
Theorem C8_status_operations :
  sets_status cancelJob Canceled /\
  sets_status acceptJob Accepted /\
  sets_status completeJob Completed /\
  (forall now jobId user,
      cancelJob now jobId (mkService None user) = Some (mkService None user) /\
      acceptJob now jobId (mkService None user) = Some (mkService None user) /\
      completeJob now jobId (mkService None user) = Some (mkService None user)) /\
  (forall h jobId, ~ In (M_completeJob jobId) (job_methods h)) /\
  (forall h jobId,
      (In (M_cancelJob jobId) (job_methods h) -> h = H_cancelJob jobId) /\
      (In (M_acceptJob jobId) (job_methods h) -> h = H_acceptJob jobId)) /\
  (forall myJobsAsCustomer myJobsAsWorker h,
      In h (hiredTabHandlers myJobsAsCustomer ++ jobsTabHandlers myJobsAsWorker) ->
      exists j,
        status j = Pending /\
        ((h = H_cancelJob (job_id j) /\ In j myJobsAsCustomer) \/
         (h = H_acceptJob (job_id j) /\ In j myJobsAsWorker))) /\
  (forall myJobsAsCustomer myJobsAsWorker jobId,
      (In (H_cancelJob jobId) (hiredTabHandlers myJobsAsCustomer)
       <-> exists j, In j myJobsAsCustomer /\ job_id j = jobId /\
                     status j = Pending) /\
      (In (H_acceptJob jobId) (jobsTabHandlers myJobsAsWorker)
       <-> exists j, In j myJobsAsWorker /\ job_id j = jobId /\
                     status j = Pending)) /\
  (forall myJobsAsCustomer myJobsAsWorker h now user jobs,
      (forall j, In j (myJobsAsCustomer ++ myJobsAsWorker) ->
                 jobs !! job_id j = Some j) ->
      In h (hiredTabHandlers myJobsAsCustomer ++ jobsTabHandlers myJobsAsWorker) ->
      exists j jobs',
        status <$> jobs !! job_id j = Some Pending /\
        ((h = H_cancelJob (job_id j) /\
          cancelJob now (job_id j) (mkService (Some jobs) user)
          = Some (mkService (Some jobs') user) /\
          status <$> jobs' !! job_id j = Some Canceled) \/
         (h = H_acceptJob (job_id j) /\
          acceptJob now (job_id j) (mkService (Some jobs) user)
          = Some (mkService (Some jobs') user) /\
          status <$> jobs' !! job_id j = Some Accepted)) /\
        (forall k, k <> job_id j -> jobs' !! k = jobs !! k)) /\
  (forall newId uid now worker cat descr,
      status (jobRequest newId uid now worker cat descr) = Pending).
Proof.
  assert (Hop : forall st op,
             (forall now jobId svc,
                 op now jobId svc
                 = match db svc with
                   | None => Some svc
                   | Some jobs =>
                       match updateDoc jobs jobId st now with
                       | None => None
                       | Some jobs' => Some (mkService (Some jobs') (currentFirebaseUser svc))
                       end
                   end) ->
             sets_status op st).
  { intros st op Hdef now jobId user jobs j Hj.
    destruct (updateDoc_spec jobs jobId j st now Hj) as [jobs' [Hu [Hget Hother]]].
    exists jobs'. rewrite Hdef. simpl. rewrite Hu. auto. }
  assert (Hcancel : sets_status cancelJob Canceled) by (apply Hop; reflexivity).
  assert (Haccept : sets_status acceptJob Accepted) by (apply Hop; reflexivity).
  split; [exact Hcancel|].
  split; [exact Haccept|].
  split; [apply Hop; reflexivity|].
  split; [intros; repeat split|].
  split; [intros h jobId; destruct h; simpl; intuition discriminate|].
  split.
  { intros h jobId; destruct h; simpl; split; intros Hin;
      try contradiction; destruct Hin as [Hin | []]; congruence. }
  split; [apply rendered_status_handler|].
  split.
  { intros cj wj jobId. split.
    - unfold hiredTabHandlers. rewrite in_flat_map. split.
      + intros [j [Hj Hin]]. exists j.
        destruct (status j) eqn:Hst; simpl in Hin; try contradiction.
        destruct Hin as [Hin | []]. repeat split; congruence.
      + intros [j [Hj [Hid Hst]]]. exists j. split; [exact Hj|].
        rewrite Hst. simpl. left. congruence.
    - unfold jobsTabHandlers, pendingWorkerJobs. rewrite in_map_iff. split.
      + intros [j [Hid Hj]]. apply filter_In in Hj. destruct Hj as [Hj Hst].
        exists j. repeat split; [exact Hj|congruence|].
        destruct (status j); simpl in Hst; congruence.
      + intros [j [Hj [Hid Hst]]]. exists j. split; [congruence|].
        apply filter_In. split; [exact Hj|]. rewrite Hst. reflexivity. }
  split; [|reflexivity].
  intros cj wj h now user jobs Hstore Hin.
  destruct (rendered_status_handler cj wj h Hin) as [j [Hst [[Hh Hj] | [Hh Hj]]]].
  - assert (Hlook : jobs !! job_id j = Some j)
      by (apply Hstore, in_or_app; left; exact Hj).
    destruct (Hcancel now (job_id j) user jobs j Hlook) as [jobs' [Hc [Hget Hother]]].
    exists j, jobs'. rewrite Hlook, Hget. simpl. rewrite Hst.
    split; [reflexivity|]. split; [left; auto | exact Hother].
  - assert (Hlook : jobs !! job_id j = Some j)
      by (apply Hstore, in_or_app; right; exact Hj).
    destruct (Haccept now (job_id j) user jobs j Hlook) as [jobs' [Hc [Hget Hother]]].
    exists j, jobs'. rewrite Hlook, Hget. simpl. rewrite Hst.
    split; [reflexivity|]. split; [right; auto | exact Hother].
Qed.

Lemma C8_status_operations_witness :
  exists jobs',
    cancelJob 2 "j1" (service_with Accepted) = Some (mkService (Some jobs') (Some "u1")) /\
    jobs' !! "j1"
    = Some (mkJob "j1" "u1" "w3" Plumber "Quick booking for Plumber" Canceled 1 2) /\
    (forall k, k <> "j1" -> jobs' !! k = ({[ "j1" := sample_job Accepted ]} : gmap string Job) !! k).
Proof.
  exact (proj1 C8_status_operations 2 "j1" (Some "u1")
           {[ "j1" := sample_job Accepted ]} (sample_job Accepted)
           (lookup_singleton_eq "j1" (sample_job Accepted))).
Defined.

(** * Further properties *)

(** ** The classifier: the result attains the highest count *)

Lemma catalog_lookup (c : CategoryDefinition) :
  In c CATEGORY_DEFS -> CATEGORY_BY_ID (cd_id c) = c.
Proof.
  intros H. simpl in H.
  destruct H as [<-|[<-|[<-|[<-|[<-|[]]]]]]; reflexivity.
Qed.

(** What the loop over a list of definitions returns: the best never
    decreases, it bounds every count seen, and it is either the initial
    best or a definition of the list that beats it. *)
Lemma detect_loop_max (lower : string) (l : list CategoryDefinition) (b : Best) :
  let r := fold_left (detectStep lower) l b in
  best_score b <= best_score r /\
  (forall d, In d l -> keywordScore lower d <= best_score r) /\
  (r = b \/
   exists c, In c l /\ r = mkBest (cd_id c) (keywordScore lower c) /\
             best_score b < keywordScore lower c).
Proof.
  revert b; induction l as [|c l IH]; intros b; simpl.
  - split; [lia|]. split; [tauto|]. now left.
  - specialize (IH (detectStep lower b c)).
    destruct IH as [Hge [Hall Hwho]].
    set (r := fold_left (detectStep lower) l (detectStep lower b c)) in *.
    assert (Hstep : best_score b <= best_score (detectStep lower b c) /\
                    keywordScore lower c <= best_score (detectStep lower b c)).
    { unfold detectStep. destruct (keywordScore lower c >? best_score b) eqn:E; simpl; lia. }
    split; [lia|]. split.
    + intros d [<-|Hd]; [lia|apply Hall; exact Hd].
    + destruct Hwho as [Hr|[c' [Hc' [Hr Hlt]]]].
      * unfold detectStep in Hr.
        destruct (keywordScore lower c >? best_score b) eqn:E.
        -- right. exists c. split; [now left|]. split; [exact Hr|lia].
        -- now left.
      * right. exists c'. split; [now right|]. split; [exact Hr|lia].
Qed.

(** X1. The category [detectCategory] returns has the highest keyword
    count of the catalog, and a result other than [General] has a positive
    count. *)
Theorem detectCategory_maximal (text : string) :
  let count := keywordScore (Js.toLowerCase text) in
  (forall d, In d CATEGORY_DEFS ->
             count d <= count (CATEGORY_BY_ID (detectCategory text))) /\
  (detectCategory text <> General -> 0 < count (CATEGORY_BY_ID (detectCategory text))).
Proof.
  intros count. unfold detectCategory, detectLoop.
  destruct (detect_loop_max (Js.toLowerCase text) CATEGORY_DEFS (mkBest General 0))
    as [Hge [Hall Hwho]].
  set (r := fold_left (detectStep (Js.toLowerCase text)) CATEGORY_DEFS (mkBest General 0)) in *.
  simpl in Hge.
  destruct Hwho as [Hr|[c [Hc [Hr Hlt]]]].
  - rewrite Hr in *. simpl. split; [|congruence].
    intros d Hd. specialize (Hall d Hd). simpl in Hall.
    pose proof (keywordScore_nonneg (Js.toLowerCase text) (CATEGORY_BY_ID General)).
    unfold count. lia.
  - rewrite Hr in *. simpl in *.
    destruct (keywordScore (Js.toLowerCase text) c >? 0) eqn:E; [|lia].
    rewrite (catalog_lookup c Hc). split.
    + intros d Hd. apply Hall. exact Hd.
    + intros _. exact Hlt.
Qed.

(** ** The classifier: a keyword inside the text counts *)

Lemma prefix_append (kw b : string) : String.prefix kw (kw ++ b) = true.
Proof.
  induction kw as [|c kw IH]; [destruct b; reflexivity|].
  change (String.prefix (String c kw) (String c (kw ++ b)) = true).
  simpl. destruct (Ascii.ascii_dec c c); [exact IH|congruence].
Qed.

Lemma includes_append (a kw b : string) : Js.includes (a ++ kw ++ b) kw = true.
Proof.
  induction a as [|c a IH].
  - change (Js.includes (kw ++ b) kw = true).
    pose proof (prefix_append kw b) as Hp.
    destruct (kw ++ b); cbn [Js.includes]; rewrite Hp; reflexivity.
  - change (Js.includes (String c (a ++ kw ++ b)) kw = true).
    cbn [Js.includes]. rewrite IH. apply orb_true_r.
Qed.

Lemma keywordScore_hit (lower : string) (c : CategoryDefinition) (kw : string) :
  In kw (keywords c) -> Js.includes lower kw = true -> 1 <= keywordScore lower c.
Proof.
  intros Hin Hinc. unfold keywordScore. rewrite (count_fold (Js.includes lower)).
  assert (Hf : In kw (filter (Js.includes lower) (keywords c))).
  { apply filter_In. split; assumption. }
  destruct (filter (Js.includes lower) (keywords c)); [contradiction|]. simpl List.length. lia.
Qed.

(** X2. When the lower-cased text contains a keyword of some category
    anywhere, also inside a longer word, the category returned has at least
    one keyword in the text: the result is not the zero-count fallback. *)
Theorem detectCategory_keyword_inside (text : string) (c : CategoryDefinition)
    (kw before after : string) :
  In c CATEGORY_DEFS ->
  In kw (keywords c) ->
  Js.toLowerCase text = before ++ kw ++ after ->
  1 <= keywordScore (Js.toLowerCase text) (CATEGORY_BY_ID (detectCategory text)).
Proof.
  intros Hc Hkw Htext.
  assert (Hhit : 1 <= keywordScore (Js.toLowerCase text) c).
  { apply (keywordScore_hit _ c kw Hkw). rewrite Htext. apply includes_append. }
  unfold detectCategory, detectLoop.
  destruct (detect_loop_max (Js.toLowerCase text) CATEGORY_DEFS (mkBest General 0))
    as [_ [Hall Hwho]].
  set (r := fold_left (detectStep (Js.toLowerCase text)) CATEGORY_DEFS (mkBest General 0)) in *.
  specialize (Hall c Hc).
  destruct Hwho as [Hr|[c' [Hc' [Hr Hlt]]]].
  - rewrite Hr in Hall. simpl in Hall. lia.
  - rewrite Hr in *. simpl in *.
    destruct (keywordScore (Js.toLowerCase text) c' >? 0) eqn:E; [|lia].
    rewrite (catalog_lookup c' Hc'). lia.
Qed.

Lemma detectCategory_keyword_inside_witness :
  1 <= keywordScore (Js.toLowerCase "A Scarf")
         (CATEGORY_BY_ID (detectCategory "A Scarf")).
Proof.
  apply (detectCategory_keyword_inside "A Scarf" (CATEGORY_BY_ID Driver) "car" "a s" "f").
  - simpl. tauto.
  - simpl. tauto.
  - reflexivity.
Defined.

(** ** The ranker: which workers are listed *)

Lemma sw_scoredOf (s : ChatState) (ws : list WorkerProfile) :
  map sw (map (scoredOf s) ws) = ws.
Proof. rewrite map_map. simpl. apply map_id. Qed.

(** X3. The ranked list has exactly [min 3 (length ws)] workers, all of
    them from the roster. *)
Theorem rankWorkers_exact_length (ws : list WorkerProfile) (s : ChatState) :
  List.length (rankWorkers ws s) = Nat.min 3 (List.length ws) /\
  (forall w, In w (rankWorkers ws s) -> In w ws).
Proof.
  split.
  - rewrite rankWorkers_unfold, length_map, length_firstn.
    rewrite (js_sort_length sc), length_map. reflexivity.
  - intros w Hw. rewrite rankWorkers_unfold in Hw.
    apply in_map_iff in Hw. destruct Hw as [x [<- Hx]].
    apply in_firstn in Hx. apply sorted_scores in Hx. tauto.
Qed.

Lemma StronglySorted_app_inv {A} (R : A -> A -> Prop) (l1 l2 : list A) :
  StronglySorted R (l1 ++ l2)%list ->
  forall a b, In a l1 -> In b l2 -> R a b.
Proof.
  induction l1 as [|x l1 IH]; simpl; intros H a b Ha Hb; [contradiction|].
  inversion H as [|? ? Hs Hf]; subst.
  destruct Ha as [<-|Ha].
  - rewrite Forall_forall in Hf. apply Hf. apply in_or_app. now right.
  - apply IH; assumption.
Qed.


(** ** The ranker: skills of several words *)

Lemma rev_string_allWord (acc s : string) :
  allWord acc = true -> allWord s = true -> allWord (Js.rev_string acc s) = true.
Proof.
  revert acc; induction s as [|c s IH]; intros acc Ha Hs; simpl in *; [exact Ha|].
  apply andb_true_iff in Hs. destruct Hs as [Hc Hs].
  apply IH; [simpl; rewrite Hc, Ha; reflexivity|exact Hs].
Qed.

Lemma splitW_go_allWord (acc : string) (inrun : bool) (s x : string) :
  allWord acc = true -> In x (Js.splitW_go acc inrun s) -> allWord x = true.
Proof.
  revert acc inrun; induction s as [|c s IH]; intros acc inrun Ha Hx; simpl in Hx.
  - destruct Hx as [<-|[]]. apply rev_string_allWord; [reflexivity|exact Ha].
  - destruct (Js.isWordChar c) eqn:Hc.
    + apply (IH (String c acc) false); [simpl; rewrite Hc, Ha; reflexivity|exact Hx].
    + destruct inrun.
      * apply (IH acc true); assumption.
      * destruct Hx as [<-|Hx].
        -- apply rev_string_allWord; [reflexivity|exact Ha].
        -- apply (IH EmptyString true); [reflexivity|exact Hx].
Qed.

(** X6. The pieces of an answer hold word characters only.  So a skill
    whose lower-cased form has any other character -- a space, a hyphen --
    is counted exactly when it is one of the category's own keywords; the
    answers can never make it match. *)
Theorem skill_with_separator (s : ChatState) (sk : string) :
  allWord (Js.toLowerCase sk) = false ->
  (Js.arr_includes (rankKeywords s) (Js.toLowerCase sk) = true
   <-> In (Js.toLowerCase sk) (keywords (CATEGORY_BY_ID (category s)))).
Proof.
  intros Hsep. rewrite arr_includes_In, rankKeywords_spec. unfold spec_keywordSet.
  split; [|now left].
  intros [H|[k [v [_ Hx]]]]; [exact H|].
  apply (splitW_go_allWord EmptyString false) in Hx; [congruence|reflexivity].
Qed.

Lemma skill_with_separator_witness :
  Js.arr_includes (rankKeywords sample_state) (Js.toLowerCase "Leak Repair") = true
  <-> In (Js.toLowerCase "Leak Repair") (keywords (CATEGORY_BY_ID (category sample_state))).
Proof.
  apply (skill_with_separator sample_state "Leak Repair"). reflexivity.
Defined.

(** ** Sorting with any consistent comparator *)

Lemma sort_insert_permutation {A} (cmp : A -> A -> Q) (x : A) (l : list A) :
  Permutation (sort_insert cmp x l) (x :: l).
Proof.
  induction l as [|y l IH]; simpl; [reflexivity|].
  destruct (Qpositive (cmp x y)); [|reflexivity].
  rewrite IH. apply perm_swap.
Qed.

Lemma js_sort_permutation {A} (cmp : A -> A -> Q) (l : list A) :
  Permutation (js_sort cmp l) l.
Proof.
  induction l as [|x l IH]; simpl; [reflexivity|].
  rewrite sort_insert_permutation. now constructor.
Qed.

Section SortingBy.

Context {A : Type} (cmp : A -> A -> Q) (R : A -> A -> Prop).

Hypothesis R_trans : forall a b c, R a b -> R b c -> R a c.
Hypothesis cmp_after : forall x y, Qpositive (cmp x y) = true -> R y x.
Hypothesis cmp_before : forall x y, Qpositive (cmp x y) = false -> R x y.

Lemma sort_insert_sorted (x : A) (l : list A) :
  StronglySorted R l -> StronglySorted R (sort_insert cmp x l).
Proof.
  induction 1 as [|y l Hl IH Hy]; simpl.
  - constructor; constructor.
  - destruct (Qpositive (cmp x y)) eqn:E.
    + constructor; [exact IH|].
      rewrite Forall_forall. intros z Hz.
      apply (Permutation_in _ (sort_insert_permutation cmp x l)) in Hz.
      destruct Hz as [<-|Hz]; [apply cmp_after; exact E|].
      rewrite Forall_forall in Hy. apply Hy. exact Hz.
    + constructor; [constructor; assumption|].
      constructor; [apply cmp_before; exact E|].
      rewrite Forall_forall in Hy |- *. intros z Hz.
      apply R_trans with y; [apply cmp_before; exact E|apply Hy; exact Hz].
Qed.

Lemma js_sort_sorted (l : list A) : StronglySorted R (js_sort cmp l).
Proof.
  induction l as [|x l IH]; simpl; [constructor|].
  apply sort_insert_sorted. exact IH.
Qed.

End SortingBy.

Lemma StronglySorted_filter {A} (R : A -> A -> Prop) (P : A -> bool) (l : list A) :
  StronglySorted R l -> StronglySorted R (filter P l).
Proof.
  induction 1 as [|x l Hl IH Hx]; simpl; [constructor|].
  destruct (P x); [|exact IH].
  constructor; [exact IH|].
  rewrite Forall_forall in Hx |- *. intros y Hy.
  apply filter_In in Hy. apply Hx. tauto.
Qed.

Lemma StronglySorted_weaken {A} (R R' : A -> A -> Prop) (l : list A) :
  (forall a b, In a l -> In b l -> R a b -> R' a b) ->
  StronglySorted R l -> StronglySorted R' l.
Proof.
  intros Himp H. induction H as [|x l Hl IH Hx]; [constructor|].
  constructor.
  - apply IH. intros a b Ha Hb. apply Himp; now right.
  - rewrite Forall_forall in Hx |- *. intros y Hy.
    apply Himp; [now left|now right|apply Hx; exact Hy].
Qed.

(** ** The worker roster *)

Lemma rosterBefore_trans (a b c : WorkerProfile) :
  rosterBefore a b -> rosterBefore b c -> rosterBefore a c.
Proof.
  unfold rosterBefore. intros [H1 H2] [H3 H4].
  destruct (available a), (available b), (available c);
    try (destruct H1; discriminate); try (destruct H3; discriminate);
    (split; [tauto|]); intros E; try discriminate;
    apply Qle_trans with (rating b); auto.
Qed.

Lemma rosterOrder_spec (x y : WorkerProfile) :
  (Qpositive (rosterOrder x y) = true -> rosterBefore y x) /\
  (Qpositive (rosterOrder x y) = false -> rosterBefore x y).
Proof.
  unfold rosterOrder, rosterBefore.
  destruct (available x), (available y); simpl.
  - split; intros H; (split; [tauto|]); intros _.
    + apply Qlt_le_weak. apply (cmp_positive rating). exact H.
    + apply Qnot_lt_le. intros Hlt. apply (cmp_positive rating) in Hlt. congruence.
  - split; intros H; [discriminate|]. split; [tauto|discriminate].
  - split; intros H; [|discriminate]. split; [tauto|discriminate].
  - split; intros H; (split; [tauto|]); intros _.
    + apply Qlt_le_weak. apply (cmp_positive rating). exact H.
    + apply Qnot_lt_le. intros Hlt. apply (cmp_positive rating) in Hlt. congruence.
Qed.

Lemma roster_strongly_sorted (snap : list (string * WorkerDoc)) :
  StronglySorted rosterBefore (onWorkersSnapshot snap).
Proof.
  apply js_sort_sorted.
  - apply rosterBefore_trans.
  - intros x y. apply rosterOrder_spec.
  - intros x y. apply rosterOrder_spec.
Qed.

(** X7. The roster given to [allWorkers] holds the workers of the
    snapshot, each once per document, with every available worker before
    every unavailable one and, among workers alike in availability, the
    ratings in non-increasing order. *)
Theorem roster_sorted (snap : list (string * WorkerDoc)) :
  Permutation (onWorkersSnapshot snap) (map workerOfDoc snap) /\
  StronglySorted rosterBefore (onWorkersSnapshot snap).
Proof.
  split.
  - unfold onWorkersSnapshot. apply js_sort_permutation.
  - apply roster_strongly_sorted.
Qed.

Lemma available_first_split (l : list WorkerProfile) :
  StronglySorted rosterBefore l ->
  l = (filter available l ++ filter (fun w => negb (available w)) l)%list.
Proof.
  induction 1 as [|x l Hl IH Hx]; simpl; [reflexivity|].
  destruct (available x) eqn:E; simpl.
  - f_equal. exact IH.
  - assert (Hnone : forall y, In y l -> available y = false).
    { intros y Hy. rewrite Forall_forall in Hx. destruct (Hx y Hy) as [[H|H] _]; congruence. }
    assert (Hf : filter available l = []).
    { clear -Hnone. induction l as [|y l IH]; simpl; [reflexivity|].
      rewrite (Hnone y (or_introl eq_refl)). apply IH. intros z Hz. apply Hnone. now right. }
    assert (Hg : filter (fun w => negb (available w)) l = l).
    { clear -Hnone. induction l as [|y l IH]; simpl; [reflexivity|].
      rewrite (Hnone y (or_introl eq_refl)). simpl. f_equal.
      apply IH. intros z Hz. apply Hnone. now right. }
    rewrite Hf, Hg. reflexivity.
Qed.

(** X8. The workers shown as available are the leading part of the
    roster -- the roster is that list followed by the unavailable workers
    -- and they are listed by non-increasing rating. *)
Theorem availableWorkers_prefix (snap : list (string * WorkerDoc)) :
  let roster := onWorkersSnapshot snap in
  roster = (availableWorkers roster ++ filter (fun w => negb (available w)) roster)%list /\
  descending rating (availableWorkers roster).
Proof.
  intros roster. pose proof (roster_strongly_sorted snap) as Hs. fold roster in Hs.
  split; [apply available_first_split; exact Hs|].
  unfold descending, availableWorkers.
  apply (StronglySorted_weaken rosterBefore).
  - intros a b Ha Hb [_ Hr]. apply Hr.
    apply filter_In in Ha. apply filter_In in Hb. destruct Ha as [_ ->], Hb as [_ ->].
    reflexivity.
  - apply StronglySorted_filter. exact Hs.
Qed.

(** ** Availability of the signed-in worker *)

Lemma roster_entry (snap : list (string * WorkerDoc)) (x : WorkerProfile) :
  In x (onWorkersSnapshot snap) <->
  exists d, In (w_id x, d) snap /\ x = workerOfDoc (w_id x, d).
Proof.
  split.
  - intros H. apply (Permutation_in _ (js_sort_permutation _ _)) in H.
    apply in_map_iff in H. destruct H as [[id d] [<- Hd]].
    exists d. split; [exact Hd|reflexivity].
  - intros [d [Hd ->]].
    apply (Permutation_in _ (Permutation_sym (js_sort_permutation _ _))).
    apply in_map_iff. exists (w_id x, d). split; [reflexivity|exact Hd].
Qed.

(** X9. After the signed-in worker sets the availability to [b], the
    profile signal carries [b]; whatever snapshot of the workers collection
    arrives next, the roster has an entry for the worker, every such entry
    has availability [b] -- so the worker is shown among the available
    workers only when [b] is true -- and the documents of the other workers
    are untouched. *)
Theorem setWorkerAvailability_roster (b : bool) (dir dir' : Directory) (w : WorkerProfile) :
  userProfile dir = Some (AsWorker w) ->
  dir_db dir = true ->
  setWorkerAvailability b dir = Some dir' ->
  userProfile dir' = Some (AsWorker (worker_with_available b w)) /\
  (forall id, id <> w_id w -> workerDocs dir' !! id = workerDocs dir !! id) /\
  (forall snap,
      snapshot_of (workerDocs dir') snap ->
      (exists x, In x (onWorkersSnapshot snap) /\ w_id x = w_id w) /\
      (forall x, In x (onWorkersSnapshot snap) -> w_id x = w_id w -> available x = b) /\
      (forall x, In x (availableWorkers (onWorkersSnapshot snap)) -> w_id x = w_id w ->
                 b = true)).
Proof.
  intros Hu Hdb Hset. unfold setWorkerAvailability in Hset. rewrite Hu, Hdb in Hset.
  destruct (profileDocs dir !! w_id w) as [p|] eqn:Hp; [|discriminate].
  injection Hset as <-. simpl.
  set (d' := doc_with_available b (nullish (workerDocs dir !! w_id w) emptyDoc)).
  split; [reflexivity|].
  split; [intros id Hid; apply lookup_insert_ne; congruence|].
  intros snap Hsnap.
  assert (Hentry : forall x, In x (onWorkersSnapshot snap) -> w_id x = w_id w ->
                             available x = b).
  { intros x Hx Hid. apply roster_entry in Hx. destruct Hx as [d [Hd ->]].
    apply Hsnap in Hd. simpl in Hid. rewrite Hid in Hd.
    rewrite lookup_insert_eq in Hd. injection Hd as <-. reflexivity. }
  split; [|split].
  - exists (workerOfDoc (w_id w, d')). split; [|reflexivity].
    apply roster_entry. exists d'. split; [|reflexivity].
    apply Hsnap. simpl. apply lookup_insert_eq.
  - exact Hentry.
  - intros x Hx Hid. unfold availableWorkers in Hx. apply filter_In in Hx.
    destruct Hx as [Hx Hav]. rewrite <- (Hentry x Hx Hid). exact Hav.
Qed.

Lemma snapshot_of_single (id : string) (d : WorkerDoc) :
  snapshot_of (<[ id := d ]> ∅) [(id, d)].
Proof.
  intros k d0. simpl. split.
  - intros [E|[]]. injection E as <- <-. apply lookup_insert_eq.
  - intros H. destruct (decide (id = k)) as [<-|Hne].
    + rewrite lookup_insert_eq in H. injection H as <-. now left.
    + rewrite lookup_insert_ne in H by exact Hne. rewrite lookup_empty in H. discriminate.
Qed.

Lemma setWorkerAvailability_roster_witness :
  (exists x, In x (onWorkersSnapshot [("w3", doc_with_available false emptyDoc)]) /\
             w_id x = "w3") /\
  (forall x, In x (onWorkersSnapshot [("w3", doc_with_available false emptyDoc)]) ->
             w_id x = "w3" -> available x = false).
Proof.
  destruct (setWorkerAvailability_roster false sample_directory _ sample_worker
              eq_refl eq_refl eq_refl) as [_ [_ H]].
  destruct (H [("w3", doc_with_available false emptyDoc)]
              (snapshot_of_single "w3" (doc_with_available false emptyDoc)))
    as [H1 [H2 _]].
  split; [exact H1|exact H2].
Defined.

(** A call made alone and left to finish does what [setWorkerAvailability]
    read as one step does. *)
Lemma call_completes (b : bool) (dir dir' : Directory) (w : WorkerProfile) :
  userProfile dir = Some (AsWorker w) ->
  dir_db dir = true ->
  setWorkerAvailability b dir = Some dir' ->
  resumes [0; 0]%nat (callSetWorkerAvailability b (mkSession dir [])) = Some (mkSession dir' []).
Proof.
  intros Hu Hdb Hset. unfold setWorkerAvailability in Hset.
  unfold callSetWorkerAvailability. simpl ses_dir. rewrite Hu, Hdb in *.
  destruct (profileDocs dir !! w_id w) as [p|]; [|discriminate].
  injection Hset as <-. reflexivity.
Qed.

Lemma resume_keeps_calls (w : WorkerProfile) (b : bool) (i : nat) (ses ses' : Session) :
  let wb := Some (AsWorker (worker_with_available b w)) in
  let same := fun c => fl_profile c = w /\ fl_available c = b in
  Forall same (ses_calls ses) ->
  resume i ses = Some ses' ->
  Forall same (ses_calls ses') /\
  (List.length (ses_calls ses') = List.length (ses_calls ses)
   /\ userProfile (ses_dir ses') = userProfile (ses_dir ses)
   \/ userProfile (ses_dir ses') = wb).
Proof.
  intros wb same Hall Hres. unfold resume in Hres.
  destruct (ses_calls ses !! i) as [c|] eqn:Hc; [|discriminate].
  destruct (Forall_lookup_1 _ _ _ _ Hall Hc) as [Hw Hb].
  destruct (fl_stage c); injection Hres as <-; simpl.
  - split.
    + apply Forall_insert; [exact Hall|]. split; assumption.
    + left. split; [apply length_insert|reflexivity].
  - split.
    + apply Forall_delete. exact Hall.
    + right. unfold wb. rewrite Hw, Hb. reflexivity.
Qed.

Lemma resumes_two_calls (w : WorkerProfile) (b : bool) (sched : list nat)
    (ses ses' : Session) :
  Forall (fun c => fl_profile c = w /\ fl_available c = b) (ses_calls ses) ->
  ses_calls ses <> [] \/
  userProfile (ses_dir ses) = Some (AsWorker (worker_with_available b w)) ->
  resumes sched ses = Some ses' ->
  ses_calls ses' = [] ->
  userProfile (ses_dir ses') = Some (AsWorker (worker_with_available b w)).
Proof.
  revert ses; induction sched as [|i sched IH]; intros ses Hall Hor Hrun Hdone.
  - simpl in Hrun. injection Hrun as <-. destruct Hor as [Hne|Hu]; [contradiction|exact Hu].
  - simpl in Hrun. destruct (resume i ses) as [ses1|] eqn:Hres; [|discriminate].
    destruct (resume_keeps_calls w b i ses ses1 Hall Hres) as [Hall1 Hcase].
    apply (IH ses1 Hall1); [|exact Hrun|exact Hdone].
    destruct Hcase as [[Hlen Hu]|Hu]; [|now right].
    destruct Hor as [Hne|Hu0]; [|right; congruence].
    left. intros E. rewrite E in Hlen. simpl in Hlen.
    destruct (ses_calls ses); [contradiction|discriminate].
Qed.



Example toggleAvailability_race :
  option_map (fun ses => (userProfile (ses_dir ses), ses_calls ses))
    (resumes [0; 1; 1; 0]%nat
       (toggleAvailability (toggleAvailability (mkSession sample_directory []))))
  = Some (Some (AsWorker (worker_with_available false sample_worker)), []).
Proof. reflexivity. Qed.

(** ** Sequences of status operations *)

Lemma apply_op_unfold (o : StatusOp) (now : Z) (jobId : string) (svc : FirebaseService) :
  apply_op o now jobId svc
  = match db svc with
    | None => Some svc
    | Some jobs =>
        match updateDoc jobs jobId (op_status o) now with
        | None => None
        | Some jobs' => Some (mkService (Some jobs') (currentFirebaseUser svc))
        end
    end.
Proof. destruct o; reflexivity. Qed.

Lemma last_status_cons (o : StatusOp) (now : Z) (k : string)
    (ops : list (StatusOp * Z * string)) (jobId : string) (st : JobStatus) :
  last_status ((o, now, k) :: ops) jobId st
  = last_status ops jobId (if String.eqb k jobId then op_status o else st).
Proof. reflexivity. Qed.

Lemma same_request_refl (j : Job) : same_request j j.
Proof. repeat split. Qed.

Lemma same_request_trans (a b c : Job) :
  same_request a b -> same_request b c -> same_request a c.
Proof. unfold same_request. intuition congruence. Qed.

Lemma run_ops_jobs (ops : list (StatusOp * Z * string)) (svc svc' : FirebaseService)
    (jobs : gmap string Job) :
  run_ops ops svc = Some svc' ->
  db svc = Some jobs ->
  exists jobs',
    db svc' = Some jobs' /\
    currentFirebaseUser svc' = currentFirebaseUser svc /\
    forall jobId,
      match jobs !! jobId with
      | None => jobs' !! jobId = None
      | Some j =>
          exists j', jobs' !! jobId = Some j' /\ same_request j j' /\
                     status j' = last_status ops jobId (status j)
      end.
Proof.
  revert svc jobs; induction ops as [|[[o now] k] ops IH]; intros svc jobs Hrun Hdb.
  - simpl in Hrun. injection Hrun as <-. exists jobs. split; [exact Hdb|]. split; [reflexivity|].
    intros jobId. destruct (jobs !! jobId) as [j|]; [|reflexivity].
    exists j. split; [reflexivity|]. split; [apply same_request_refl|reflexivity].
  - simpl in Hrun. rewrite apply_op_unfold, Hdb in Hrun. unfold updateDoc in Hrun.
    destruct (jobs !! k) as [jk|] eqn:Hk; [|discriminate].
    set (jk' := mkJob (job_id jk) (customerId jk) (workerId jk) (job_category jk)
                      (description jk) (op_status o) (createdAt jk) now) in *.
    destruct (IH _ (<[k := jk']> jobs) Hrun eq_refl) as [jobs' [Hdb' [Hu Hall]]].
    exists jobs'. split; [exact Hdb'|]. split; [exact Hu|].
    intros jobId. specialize (Hall jobId).
    destruct (String.eqb_spec k jobId) as [->|Hne].
    + rewrite lookup_insert_eq in Hall. rewrite Hk.
      rewrite last_status_cons, String.eqb_refl.
      destruct Hall as [j' [Hj' [Hsame Hst]]].
      exists j'. split; [exact Hj'|]. split; [|exact Hst].
      apply same_request_trans with jk'; [repeat split|exact Hsame].
    + rewrite lookup_insert_ne in Hall by exact Hne.
      destruct (jobs !! jobId) as [j|]; [|exact Hall].
      rewrite last_status_cons. rewrite (proj2 (String.eqb_neq k jobId) Hne). exact Hall.
Qed.

(** X11. However many status operations run, they neither add nor
    remove a job, and on every job they leave the identifier, the
    customer, the worker, the category, the description and the creation
    time as they were. *)
Theorem status_ops_preserve (ops : list (StatusOp * Z * string))
    (svc svc' : FirebaseService) (jobs : gmap string Job) :
  run_ops ops svc = Some svc' ->
  db svc = Some jobs ->
  exists jobs',
    db svc' = Some jobs' /\
    forall jobId,
      (jobs !! jobId = None -> jobs' !! jobId = None) /\
      (forall j, jobs !! jobId = Some j ->
                 exists j', jobs' !! jobId = Some j' /\ same_request j j').
Proof.
  intros Hrun Hdb.
  destruct (run_ops_jobs ops svc svc' jobs Hrun Hdb) as [jobs' [Hdb' [_ Hall]]].
  exists jobs'. split; [exact Hdb'|].
  intros jobId. specialize (Hall jobId). split.
  - intros Hn. rewrite Hn in Hall. exact Hall.
  - intros j Hj. rewrite Hj in Hall. destruct Hall as [j' [H1 [H2 _]]]. eauto.
Qed.

Lemma status_ops_preserve_witness :
  exists jobs' : gmap string Job,
    forall jobId,
      (({[ "j1" := sample_job Pending ]} : gmap string Job) !! jobId = None ->
       jobs' !! jobId = None) /\
      (forall j, ({[ "j1" := sample_job Pending ]} : gmap string Job) !! jobId = Some j ->
                 exists j', jobs' !! jobId = Some j' /\ same_request j j').
Proof.
  destruct (status_ops_preserve sample_ops (service_with Pending) _
              {[ "j1" := sample_job Pending ]} eq_refl eq_refl) as [jobs' [_ H]].
  exists jobs'. exact H.
Defined.

(** X12. The status of a job after a sequence of operations is the one
    asked for by the last operation on that job, whatever the job's status
    was and whatever the earlier operations were. *)
Theorem status_last_write_wins (ops : list (StatusOp * Z * string))
    (svc svc' : FirebaseService) (jobId : string) (st : JobStatus) :
  run_ops ops svc = Some svc' ->
  statusOf svc jobId = Some st ->
  statusOf svc' jobId = Some (last_status ops jobId st).
Proof.
  intros Hrun Hst. unfold statusOf in *.
  destruct (db svc) as [jobs|] eqn:Hdb; [|discriminate].
  destruct (run_ops_jobs ops svc svc' jobs Hrun Hdb) as [jobs' [Hdb' [_ Hall]]].
  rewrite Hdb'. specialize (Hall jobId).
  destruct (jobs !! jobId) as [j|]; [|discriminate].
  simpl in Hst. injection Hst as <-.
  destruct Hall as [j' [Hj' [_ Hs]]]. rewrite Hj'. simpl. rewrite Hs. reflexivity.
Qed.

Lemma status_last_write_wins_witness :
  exists svc',
    run_ops sample_ops (service_with Pending) = Some svc' /\
    statusOf svc' "j1" = Some Canceled.
Proof.
  eexists. split; [reflexivity|].
  exact (status_last_write_wins sample_ops (service_with Pending) _ "j1" Pending
           eq_refl eq_refl).
Defined.

(** X13. A status operation is rejected exactly when the store is
    configured and holds no job under the identifier; without a store it
    returns and changes nothing. *)
Theorem status_op_rejected (o : StatusOp) (now : Z) (jobId : string) (svc : FirebaseService) :
  (apply_op o now jobId svc = None
   <-> exists jobs, db svc = Some jobs /\ jobs !! jobId = None) /\
  (db svc = None -> apply_op o now jobId svc = Some svc).
Proof.
  rewrite apply_op_unfold. unfold updateDoc. split.
  - destruct (db svc) as [jobs|].
    + destruct (jobs !! jobId) eqn:Hj; split.
      * discriminate.
      * intros [jobs' [E Hn]]. injection E as <-. congruence.
      * intros _. exists jobs. split; [reflexivity|exact Hj].
      * reflexivity.
    + split; [discriminate|]. intros [jobs [E _]]. discriminate.
  - intros ->. reflexivity.
Qed.

(** ** The job lists of the worker *)

Lemma accepted_count_app (l1 l2 : list Job) (j : Job) :
  fst (earningsSummary (l1 ++ j :: l2)%list)
  = fst (earningsSummary (l1 ++ l2)%list)
    + (if status_eqb (status j) Accepted then 75 else 0).
Proof.
  unfold earningsSummary. simpl fst. rewrite !filter_app, !length_app. simpl filter.
  destruct (status_eqb (status j) Accepted); simpl List.length; lia.
Qed.

Lemma earnings_month (l : list Job) :
  snd (earningsSummary l) = 4 * fst (earningsSummary l).
Proof. unfold earningsSummary. simpl. lia. Qed.

Lemma pending_app (l1 l2 : list Job) (j : Job) :
  pendingWorkerJobs (l1 ++ j :: l2)%list
  = (pendingWorkerJobs l1
     ++ (if status_eqb (status j) Pending then [j] else [])
     ++ pendingWorkerJobs l2)%list.
Proof.
  unfold pendingWorkerJobs. rewrite filter_app. simpl.
  destruct (status_eqb (status j) Pending); reflexivity.
Qed.

(** X14. In the worker's job list, a job that goes from [Pending] to
    [Accepted] leaves the pending requests and adds 75 to the week's
    earnings and 300 to the month's; when it then becomes [Completed] (or
    [Canceled]) the earnings are back to what they were. *)
Theorem accept_moves_job (l1 l2 : list Job) (jp ja jd : Job) :
  status jp = Pending ->
  status ja = Accepted ->
  status jd = Completed \/ status jd = Canceled ->
  pendingWorkerJobs (l1 ++ jp :: l2)%list
  = (pendingWorkerJobs l1 ++ jp :: pendingWorkerJobs l2)%list /\
  pendingWorkerJobs (l1 ++ ja :: l2)%list
  = (pendingWorkerJobs l1 ++ pendingWorkerJobs l2)%list /\
  earningsSummary (l1 ++ ja :: l2)%list
  = (fst (earningsSummary (l1 ++ jp :: l2)%list) + 75,
     snd (earningsSummary (l1 ++ jp :: l2)%list) + 300) /\
  earningsSummary (l1 ++ jd :: l2)%list = earningsSummary (l1 ++ jp :: l2)%list.
Proof.
  intros Hp Ha Hd.
  assert (Hpair : forall l l', fst (earningsSummary l) = fst (earningsSummary l') ->
                               earningsSummary l = earningsSummary l').
  { intros l l' H. rewrite (surjective_pairing (earningsSummary l)),
      (surjective_pairing (earningsSummary l')), !earnings_month, H. reflexivity. }
  split; [rewrite pending_app, Hp; reflexivity|].
  split; [rewrite pending_app, Ha; reflexivity|].
  split.
  - rewrite (surjective_pairing (earningsSummary (l1 ++ ja :: l2)%list)).
    rewrite !earnings_month, !accepted_count_app, Ha, Hp. simpl. f_equal; lia.
  - apply Hpair. rewrite !accepted_count_app, Hp.
    destruct Hd as [-> | ->]; reflexivity.
Qed.

Lemma accept_moves_job_witness :
  pendingWorkerJobs [sample_job Pending] = [sample_job Pending] /\
  pendingWorkerJobs [sample_job Accepted] = [] /\
  earningsSummary [sample_job Accepted] = (0 + 75, 0 + 300) /\
  earningsSummary [sample_job Completed] = earningsSummary [sample_job Pending].
Proof.
  exact (accept_moves_job [] [] (sample_job Pending) (sample_job Accepted)
           (sample_job Completed) eq_refl eq_refl (or_introl eq_refl)).
Defined.

(** ** The wizard: no operation throws *)

(** X15. No operation of the wizard throws: in every state, reachable
    or not, each event has a next state. *)
Theorem wizard_never_throws (e : Event) (m : AiModal) : exists m', fire e m = Some m'.
Proof.
  destruct (currentFaq_defined m) as [f Hf].
  destruct e; simpl; eauto.
  - unfold answerBoolean. rewrite Hf. eauto.
  - unfold answerSelect. rewrite Hf. eauto.
  - unfold nextFaq. rewrite Hf.
    destruct (faqIndex (state (recordText f m))
              <? Z.of_nat (List.length (faqsOf (recordText f m))) - 1); eauto.
Qed.

(** ** The wizard: the current question *)

Lemma reachable_inv (m : AiModal) : reachable m -> wizard_inv (state m).
Proof.
  induction 1 as [|m e m' _ IH Hstep].
  - apply wizard_inv_unranked; [|reflexivity]. vm_compute. split; congruence.
  - apply (wizard_step_inv m m' e IH Hstep).
Qed.

Lemma arr_get_in_range {A} (l : list A) (i : Z) :
  0 <= i <= Z.of_nat (List.length l) - 1 ->
  exists x, Js.arr_get l i = Some x /\ In x l.
Proof.
  intros Hi. unfold Js.arr_get.
  destruct (i <? 0) eqn:E; [lia|].
  destruct (nth_error l (Z.to_nat i)) as [x|] eqn:Hn.
  - exists x. split; [reflexivity|]. apply nth_error_In in Hn. exact Hn.
  - apply nth_error_None in Hn. lia.
Qed.

(** X16. In every reachable state the current question is the one at
    the index, a question of the active category: the fall-back to the
    first question is never taken. *)
Theorem currentFaq_at_index (m : AiModal) :
  reachable m ->
  exists f,
    Js.arr_get (faqsOf m) (faqIndex (state m)) = Some f /\
    currentFaq m = Some f /\
    In f (faqsOf m).
Proof.
  intros Hr. apply reachable_inv in Hr. destruct Hr as [Hi _].
  destruct (arr_get_in_range (faqsOf m) (faqIndex (state m)) Hi) as [f [Hf Hin]].
  exists f. split; [exact Hf|]. split; [|exact Hin].
  unfold currentFaq. rewrite Hf. reflexivity.
Qed.

Lemma currentFaq_at_index_witness :
  exists f,
    Js.arr_get (faqsOf (general_at_task "   ")) 0 = Some f /\
    currentFaq (general_at_task "   ") = Some f /\
    In f (faqsOf (general_at_task "   ")).
Proof.
  apply (currentFaq_at_index (general_at_task "   ")).
  apply (reachable_run [EvOpen; EvDraft "help"; EvSubmit; EvAnswerText "   "] initialModal).
  - apply reach_init.
  - reflexivity.
Defined.

(** ** The wizard: closed, and showing results *)

(** X17. A closed wizard offers nothing but opening it again; and while
    the results are shown the only steps are opening again, closing and
    booking, the last two leaving everything but the open flag as it is. *)
Theorem wizard_closed_and_results (m : AiModal) (e : Event) :
  (isOpen (state m) = false -> enabled m e = true -> e = EvOpen) /\
  (forall m',
      step (state m) = StepResults -> wizard_step m e m' ->
      e = EvOpen \/ m' = close m).
Proof.
  split.
  - intros Hclosed Hen.
    destruct e; try reflexivity; simpl in Hen; unfold in_step in Hen;
      rewrite Hclosed in Hen; simpl in Hen; discriminate.
  - intros m' Hres [Hen Hfire].
    assert (Hoff : forall st, offered_in e = Some st -> step (state m) = st).
    { intros st Hst. apply (enabled_offered m e st Hen Hst). }
    destruct e; simpl in Hfire;
      try (left; reflexivity);
      try (right; congruence);
      try (specialize (Hoff StepStart eq_refl); congruence);
      try (specialize (Hoff StepFaqs eq_refl); congruence).
Qed.

Lemma wizard_closed_and_results_witness :
  EvBook sample_worker = EvOpen \/ close sample_results = close sample_results.
Proof.
  exact (proj2 (wizard_closed_and_results sample_results (EvBook sample_worker))
           (close sample_results) eq_refl (conj eq_refl eq_refl)).
Defined.

(** ** The wizard: going through the questionnaire *)

Lemma nextFaq_blank (ws : list WorkerProfile) (m : AiModal) :
  Js.trim (currentAnswerText m) = "" ->
  nextFaq ws m
  = Some (if faqIndex (state m) <? lastFaq (state m)
          then upd_state (fun s => with_faqIndex (faqIndex s + 1) s) m
          else upd_state (with_results (rankWorkers ws (state m))) m).
Proof.
  intros Hb. destruct (currentFaq_defined m) as [f Hf].
  unfold nextFaq. rewrite Hf, (recordText_blank f m Hb).
  change (Z.of_nat (List.length (faqsOf m)) - 1) with (lastFaq (state m)).
  destruct (faqIndex (state m) <? lastFaq (state m)); reflexivity.
Qed.

Lemma run_next_below (ws : list WorkerProfile) (k : nat) (m : AiModal) :
  isOpen (state m) = true ->
  step (state m) = StepFaqs ->
  Js.trim (currentAnswerText m) = "" ->
  faqIndex (state m) + Z.of_nat k <= lastFaq (state m) ->
  run (repeat (EvNext ws) k) m
  = Some (upd_state (with_faqIndex (faqIndex (state m) + Z.of_nat k)) m).
Proof.
  revert m; induction k as [|k IH]; intros m Ho Hs Hb Hk.
  - simpl. rewrite Z.add_0_r. destruct m as [[]]; reflexivity.
  - cbn [repeat run]. cbn [enabled fire]. unfold in_step. rewrite Ho, Hs. simpl andb.
    rewrite (nextFaq_blank ws m Hb).
    destruct (faqIndex (state m) <? lastFaq (state m)) eqn:E; [|lia].
    rewrite IH; simpl; try assumption.
    + unfold upd_state, with_faqIndex. simpl. do 3 f_equal. lia.
    + unfold lastFaq in *. simpl. lia.
Qed.



(** X19. Going back and then forward returns to the same question: for
    an index above 0, [nextFaq] after [prevFaq] gives the index and the
    step there were. *)
Theorem back_then_next (ws : list WorkerProfile) (m : AiModal) :
  0 < faqIndex (state m) <= lastFaq (state m) ->
  exists m',
    nextFaq ws (prevFaq m) = Some m' /\
    faqIndex (state m') = faqIndex (state m) /\
    step (state m') = step (state m) /\
    category (state m') = category (state m) /\
    ranked (state m') = ranked (state m).
Proof.
  intros Hi. destruct (currentFaq_defined (prevFaq m)) as [f Hf].
  unfold nextFaq. rewrite Hf.
  destruct (recordText_state f (prevFaq m)) as [_ [Hs [Hc [Hidx Hr]]]].
  set (m1 := recordText f (prevFaq m)) in *.
  change (Z.of_nat (List.length (faqsOf m1)) - 1) with (lastFaq (state m1)).
  assert (Hlast : lastFaq (state m1) = lastFaq (state m))
    by (unfold lastFaq; rewrite Hc; reflexivity).
  simpl in Hs, Hc, Hidx, Hr.
  assert (E : (faqIndex (state m1) <? lastFaq (state m1)) = true).
  { apply Z.ltb_lt. rewrite Hidx, Hlast. lia. }
  rewrite E. eexists. split; [reflexivity|]. simpl.
  rewrite Hidx. split; [lia|]. split; [exact Hs|]. split; [exact Hc|exact Hr].
Qed.

Lemma back_then_next_witness :
  exists m',
    nextFaq [] (prevFaq (mkModal sample_state "" "")) = Some m' /\
    faqIndex (state m') = 3 /\
    step (state m') = StepFaqs /\
    category (state m') = Plumber /\
    ranked (state m') = [].
Proof.
  apply (back_then_next [] (mkModal sample_state "" "")). vm_compute. split; congruence.
Defined.

(** ** Trimming *)

Lemma trimStart_head (s : string) :
  trimStart_result_ok (Js.trimStart s).
Proof.
  induction s as [|c s IH]; simpl; [now left|].
  destruct (Js.isWhite c) eqn:E; [exact IH|].
  right. exists c, s. split; [reflexivity|exact E].
Qed.

Lemma trimEnd_cons (c : ascii) (s : string) :
  Js.isWhite c = false -> exists r, Js.trimEnd (String c s) = String c r.
Proof.
  intros E. simpl. destruct (Js.trimEnd s); [rewrite E|]; eauto.
Qed.

Lemma trimEnd_idem (s : string) : Js.trimEnd (Js.trimEnd s) = Js.trimEnd s.
Proof.
  induction s as [|c s IH]; [reflexivity|].
  simpl. destruct (Js.trimEnd s) as [|c' r] eqn:E.
  - destruct (Js.isWhite c) eqn:Ew; [reflexivity|]. simpl. rewrite Ew. reflexivity.
  - change (Js.trimEnd (String c (String c' r)))
      with (match Js.trimEnd (String c' r) with
            | EmptyString => if Js.isWhite c then EmptyString else String c EmptyString
            | t => String c t
            end).
    rewrite IH. reflexivity.
Qed.

Lemma trim_idem (s : string) : Js.trim (Js.trim s) = Js.trim s.
Proof.
  unfold Js.trim.
  destruct (trimStart_head s) as [E|[c [r [E Hc]]]]; rewrite E; [reflexivity|].
  destruct (trimEnd_cons c r Hc) as [r' Hr]. rewrite Hr.
  cbn [Js.trimStart]. rewrite Hc. rewrite <- Hr. apply trimEnd_idem.
Qed.

(** ** The wizard: the answers recorded *)

Lemma In_set_answer (a : Answers) (fid : string) (v : AnswerValue)
    (k : string) (v' : AnswerValue) :
  In (k, v') (set_answer a fid v) -> (k = fid /\ v' = v) \/ In (k, v') a.
Proof.
  induction a as [|[k0 x] a IH]; simpl.
  - intros [E|[]]. injection E as <- <-. now left.
  - destruct (String.eqb_spec k0 fid) as [->|Hne]; simpl.
    + intros [E|H]; [injection E as <- <-; now left|right; now right].
    + intros [E|H]; [right; now left|].
      destruct (IH H) as [Hl|Hr]; [now left|right; now right].
Qed.

Lemma get_answer_None (a : Answers) (fid : string) :
  get_answer a fid = None <-> ~ In fid (map fst a).
Proof.
  induction a as [|[k x] a IH]; simpl; [tauto|].
  destruct (String.eqb_spec k fid) as [->|Hne].
  - split; [discriminate|]. intros H. exfalso. apply H. now left.
  - rewrite IH. tauto.
Qed.

Lemma NoDup_set_answer (a : Answers) (fid : string) (v : AnswerValue) :
  NoDup (map fst a) -> NoDup (map fst (set_answer a fid v)).
Proof.
  intros Hnd. destruct (set_answer_order a fid v) as [Hnew Hold].
  destruct (get_answer a fid) eqn:E.
  - rewrite Hold by congruence. exact Hnd.
  - rewrite Hnew by reflexivity. rewrite map_app. simpl.
    apply (Permutation_NoDup (l := fid :: map fst a)).
    + apply Permutation_cons_append.
    + constructor; [apply get_answer_None; exact E|exact Hnd].
Qed.

Lemma set_answer_overwrite (a : Answers) (fid : string) (v1 v2 : AnswerValue) :
  set_answer (set_answer a fid v1) fid v2 = set_answer a fid v2.
Proof.
  induction a as [|[k x] a IH]; simpl.
  - rewrite String.eqb_refl. reflexivity.
  - destruct (String.eqb k fid) eqn:E; simpl; rewrite E; [reflexivity|].
    rewrite IH. reflexivity.
Qed.

Lemma arr_get_In {A} (l : list A) (i : Z) (x : A) : Js.arr_get l i = Some x -> In x l.
Proof.
  unfold Js.arr_get. destruct (i <? 0); [discriminate|]. apply nth_error_In.
Qed.

Lemma currentFaq_In (m : AiModal) (f : FaqItem) :
  currentFaq m = Some f -> In f (faqsOf m).
Proof.
  unfold currentFaq. intros H.
  destruct (Js.arr_get (faqsOf m) (faqIndex (state m))) eqn:E.
  - injection H as <-. apply (arr_get_In _ _ _ E).
  - apply (arr_get_In _ _ _ H).
Qed.

Lemma answers_ok_ext (s s' : ChatState) :
  category s' = category s -> answers s' = answers s -> answers_ok s -> answers_ok s'.
Proof. unfold answers_ok. intros -> ->. tauto. Qed.

Lemma answers_ok_empty (s : ChatState) : answers s = [] -> answers_ok s.
Proof.
  unfold answers_ok. intros ->. split; [constructor|]. intros k v [].
Qed.

Lemma answers_ok_set (s : ChatState) (f : FaqItem) (v : AnswerValue) :
  answers_ok s ->
  In f (faqs (CATEGORY_BY_ID (category s))) ->
  answer_fits f v ->
  answers_ok (with_answers (set_answer (answers s) (faq_id f) v) s).
Proof.
  intros [Hnd Hall] Hf Hfit. unfold answers_ok. simpl. split.
  - apply NoDup_set_answer. exact Hnd.
  - intros k v' Hin. apply In_set_answer in Hin.
    destruct Hin as [[-> ->]|Hin]; [exists f; tauto|apply Hall; exact Hin].
Qed.

Lemma currentFaq_is_spec (t : FaqType) (m : AiModal) :
  currentFaq_is t m = true -> exists f, currentFaq m = Some f /\ faq_type f = t.
Proof.
  unfold currentFaq_is. destruct (currentFaq m) as [f|]; [|discriminate].
  intros H. exists f. split; [reflexivity|].
  destruct (faq_type f), t; simpl in H; congruence.
Qed.

Lemma recordText_answers_ok (f : FaqItem) (m : AiModal) :
  In f (faqsOf m) -> answers_ok (state m) -> answers_ok (state (recordText f m)).
Proof.
  intros Hf Hok. unfold recordText.
  destruct (is_text f && truthy (Js.trim (currentAnswerText m))) eqn:E; [|exact Hok].
  apply andb_true_iff in E. destruct E as [Ht Hne]. simpl.
  apply answers_ok_set; [exact Hok|exact Hf|].
  unfold answer_fits. unfold is_text in Ht.
  destruct (faq_type f); try discriminate.
  split; [|apply trim_idem].
  intros E. rewrite E in Hne. discriminate.
Qed.

Lemma wizard_step_answers (m m' : AiModal) (e : Event) :
  answers_ok (state m) -> wizard_step m e m' -> answers_ok (state m').
Proof.
  intros Hok [Hen Hfire].
  destruct e; simpl in Hfire, Hen.
  - injection Hfire as <-. apply answers_ok_empty. reflexivity.
  - injection Hfire as <-. apply (answers_ok_ext (state m)); auto.
  - injection Hfire as <-. exact Hok.
  - injection Hfire as <-. apply answers_ok_empty. reflexivity.
  - injection Hfire as <-. exact Hok.
  - apply andb_true_iff in Hen. destruct Hen as [_ Hty].
    apply currentFaq_is_spec in Hty. destruct Hty as [f [Hf Hty]].
    unfold answerBoolean in Hfire. rewrite Hf in Hfire. injection Hfire as <-.
    simpl. apply answers_ok_set; [exact Hok|apply (currentFaq_In m f Hf)|].
    unfold answer_fits. rewrite Hty. exact I.
  - apply andb_true_iff in Hen. destruct Hen as [Hen Hopt].
    apply andb_true_iff in Hen. destruct Hen as [_ Hty].
    apply currentFaq_is_spec in Hty. destruct Hty as [f [Hf Hty]].
    unfold answerSelect in Hfire. rewrite Hf in Hfire. injection Hfire as <-.
    simpl. apply answers_ok_set; [exact Hok|apply (currentFaq_In m f Hf)|].
    unfold answer_fits. rewrite Hty.
    apply arr_includes_In in Hopt. unfold currentOptions in Hopt. rewrite Hf in Hopt.
    exact Hopt.
  - injection Hfire as <-. apply (answers_ok_ext (state m)); auto.
  - unfold nextFaq in Hfire. destruct (currentFaq m) as [f|] eqn:Hf; [|discriminate].
    pose proof (recordText_answers_ok f m (currentFaq_In m f Hf) Hok) as Hok1.
    set (m1 := recordText f m) in *.
    destruct (faqIndex (state m1) <? Z.of_nat (List.length (faqsOf m1)) - 1);
      injection Hfire as <-; apply (answers_ok_ext (state m1)); auto.
  - injection Hfire as <-. apply (answers_ok_ext (state m)); auto.
Qed.

(** X20. In every reachable state each question has at most one answer,
    and each recorded answer belongs to a question of the active category
    and is of its kind: yes or no for a boolean question, one of the listed
    options for a select question, a non-empty trimmed text for a free-text
    question. *)
Theorem answers_well_formed (m : AiModal) : reachable m -> answers_ok (state m).
Proof.
  induction 1 as [|m e m' _ IH Hstep].
  - apply answers_ok_empty. reflexivity.
  - apply (wizard_step_answers m m' e IH Hstep).
Qed.

Lemma answers_well_formed_witness :
  answers_ok
    (mkState true StepFaqs General "help" 1 [("task", AStr "hang a shelf")] []).
Proof.
  apply (answers_well_formed
           (mkModal (mkState true StepFaqs General "help" 1 [("task", AStr "hang a shelf")] [])
                    "help" "")).
  apply (reachable_run
           [EvOpen; EvDraft "help"; EvSubmit; EvAnswerText "  hang a shelf "; EvNext []]
           initialModal).
  - apply reach_init.
  - reflexivity.
Defined.

(** X21. Answering the current question again replaces the answer: the
    second answer alone gives the same state, and giving the same answer
    twice is the same as giving it once. *)
Theorem answer_again (m m1 : AiModal) (v1 v2 : string) (b1 b2 : bool) :
  (answerSelect v1 m = Some m1 ->
   answerSelect v2 m1 = answerSelect v2 m /\
   answerBoolean b2 m1 = answerBoolean b2 m /\
   answerSelect v1 m1 = Some m1) /\
  (answerBoolean b1 m = Some m1 ->
   answerBoolean b2 m1 = answerBoolean b2 m /\
   answerSelect v2 m1 = answerSelect v2 m /\
   answerBoolean b1 m1 = Some m1).
Proof.
  destruct (currentFaq_defined m) as [f Hf].
  split; intros H.
  - unfold answerSelect in H. rewrite Hf in H. injection H as <-.
    unfold answerSelect, answerBoolean.
    change (currentFaq (upd_state _ m)) with (currentFaq m). rewrite Hf.
    unfold upd_state, with_answers. simpl. rewrite !set_answer_overwrite. auto.
  - unfold answerBoolean in H. rewrite Hf in H. injection H as <-.
    unfold answerSelect, answerBoolean.
    change (currentFaq (upd_state _ m)) with (currentFaq m). rewrite Hf.
    unfold upd_state, with_answers. simpl. rewrite !set_answer_overwrite. auto.
Qed.

Lemma answer_again_witness :
  let m := mkModal sample_state "" "" in
  let m1 := upd_state (with_answers (set_answer (answers sample_state) "age" (AStr "Unknown"))) m in
  answerSelect "5+ years" m1 = answerSelect "5+ years" m /\
  answerBoolean false m1 = answerBoolean false m /\
  answerSelect "Unknown" m1 = Some m1.
Proof.
  intros m m1.
  exact (proj1 (answer_again m m1 "Unknown" "5+ years" true false) eq_refl).
Defined.

(** ** The wizard: the category and the problem *)

(** X22. In every reachable state the stored problem is trimmed and the
    active category is what the classifier returns on it. *)
Theorem category_follows_problem (m : AiModal) :
  reachable m ->
  Js.trim (problem (state m)) = problem (state m) /\
  category (state m) = detectCategory (problem (state m)).
Proof.
  induction 1 as [|m e m' _ IH [Hen Hfire]].
  - split; reflexivity.
  - destruct e; simpl in Hfire;
      try (injection Hfire as <-; first [exact IH | split; reflexivity]).
    + injection Hfire as <-. simpl. split; [apply trim_idem|reflexivity].
    + unfold answerBoolean in Hfire. destruct (currentFaq m); [|discriminate].
      injection Hfire as <-. exact IH.
    + unfold answerSelect in Hfire. destruct (currentFaq m); [|discriminate].
      injection Hfire as <-. exact IH.
    + unfold nextFaq in Hfire. destruct (currentFaq m) as [f|]; [|discriminate].
      assert (H1 : problem (state (recordText f m)) = problem (state m) /\
                   category (state (recordText f m)) = category (state m)).
      { unfold recordText.
        destruct (is_text f && truthy (Js.trim (currentAnswerText m))); split; reflexivity. }
      destruct H1 as [Hp Hc].
      destruct (faqIndex (state (recordText f m))
                <? Z.of_nat (List.length (faqsOf (recordText f m))) - 1);
        injection Hfire as <-; simpl; rewrite Hp, Hc; exact IH.
Qed.

Lemma category_follows_problem_witness :
  Js.trim (problem (state (general_at_task "   "))) = problem (state (general_at_task "   ")) /\
  category (state (general_at_task "   "))
  = detectCategory (problem (state (general_at_task "   "))).
Proof.
  apply (category_follows_problem (general_at_task "   ")).
  apply (reachable_run [EvOpen; EvDraft "help"; EvSubmit; EvAnswerText "   "] initialModal).
  - apply reach_init.
  - reflexivity.
Defined.

(** ** Utilities *)

Lemma join_empty (sep x : string) (l : list string) :
  Js.join sep (x :: l) = "" -> x = "".
Proof.
  destruct l as [|y l]; simpl; [tauto|].
  destruct x; [reflexivity|]. intros H. discriminate.
Qed.

(** X23. [classNames] ignores the entries that are [false], [null],
    [undefined] or empty, wherever they stand, and its result is empty
    exactly when every entry is one of those. *)
Theorem classNames_falsy :
  (forall l1 a l2, Boolean a = false ->
                   classNames (l1 ++ a :: l2)%list = classNames (l1 ++ l2)%list) /\
  (forall l, classNames l = "" <-> Forall (fun a => Boolean a = false) l).
Proof.
  split.
  - intros l1 a l2 Ha. unfold classNames. rewrite !filter_app. simpl. rewrite Ha. reflexivity.
  - intros l. unfold classNames. split.
    + intros H. induction l as [|a l IH]; [constructor|].
      simpl in H. destruct (Boolean a) eqn:Ea.
      * exfalso. simpl in H. apply join_empty in H.
        destruct a; simpl in Ea; try discriminate. simpl in H. subst. discriminate.
      * constructor; [exact Ea|apply IH; exact H].
    + intros H. induction H as [|a l Ha _ IH]; [reflexivity|].
      simpl. rewrite Ha. exact IH.
Qed.

Example classNames_card :
  classNames [ClassStr "rounded-2xl"; ClassStr ""; ClassStr "p-4"; ClassStr ""]
  = "rounded-2xl p-4".
Proof. reflexivity. Qed.

Lemma Qfloor_range (x : Q) (n : Z) :
  (0 <= x)%Q -> (x < inject_Z n)%Q -> 0 <= Qfloor x < n.
Proof.
  intros H0 Hn. split.
  - change 0 with (Qfloor (inject_Z 0)). rewrite Qfloor_Z. 
    apply (Qfloor_resp_le (inject_Z 0) x). exact H0.
  - rewrite Zlt_Qlt. apply Qle_lt_trans with x; [apply Qfloor_le|exact Hn].
Qed.

Lemma randInt_offset (rnd : Q) (n : Z) :
  (0 <= rnd)%Q -> (rnd < 1)%Q -> 0 < n ->
  0 <= Qfloor (rnd * inject_Z n) < n.
Proof.
  intros H0 H1 Hpos.
  assert (Hn : (0 < inject_Z n)%Q).
  { change 0%Q with (inject_Z 0). rewrite <- Zlt_Qlt. exact Hpos. }
  apply Qfloor_range.
  - apply Qmult_le_0_compat; [exact H0|apply Qlt_le_weak; exact Hn].
  - rewrite <- (Qmult_1_l (inject_Z n)) at 2.
    apply Qmult_lt_r; assumption.
Qed.

(** X24. For a sample in [[0, 1)] and [min <= max], [randInt] is an
    integer between [min] and [max], both included. *)
Theorem randInt_range (rnd : Q) (min max : Z) :
  (0 <= rnd)%Q -> (rnd < 1)%Q -> min <= max ->
  min <= randInt rnd min max <= max.
Proof.
  intros H0 H1 Hmm. unfold randInt.
  pose proof (randInt_offset rnd (max - min + 1) H0 H1). lia.
Qed.

Lemma randInt_range_witness : 5 <= randInt (999 # 1000) 5 120 <= 120.
Proof.
  apply (randInt_range (999 # 1000) 5 120); [discriminate|reflexivity|lia].
Defined.

(** X25. The worker profile seeded at sign-in is always built, whatever
    the random samples in [[0, 1)]: its specialty and skills are one row of
    the table, the specialty names a category of the catalog, the rating is
    between 4 and 5, the completed jobs between 5 and 120, the hourly rate
    between 30 and 90, and the worker is available. *)
Theorem seedWorkerProfile_ranges (uid : string) (r_pick r_rating r_jobs r_rate : Q) :
  (0 <= r_pick < 1)%Q -> (0 <= r_rating < 1)%Q ->
  (0 <= r_jobs < 1)%Q -> (0 <= r_rate < 1)%Q ->
  exists w,
    seedWorkerProfile uid r_pick r_rating r_jobs r_rate = Some w /\
    w_id w = uid /\
    In (specialty w, skills w) specialties /\
    (exists c, specialty w = cat_name c) /\
    (4 <= rating w <= 5)%Q /\
    5 <= jobsCompleted w <= 120 /\
    (30 <= hourlyRate w <= 90)%Q /\
    available w = true.
Proof.
  intros [Hp0 Hp1] [Hr0 Hr1] [Hj0 Hj1] [Hh0 Hh1].
  assert (randInt_bounds : forall r a b, (0 <= r)%Q -> (r < 1)%Q -> a <= b ->
                                         a <= randInt r a b <= b).
  { intros r a b Hr Hr' Hab. unfold randInt.
    pose proof (randInt_offset r (b - a + 1) Hr Hr'). lia. }
  unfold seedWorkerProfile.
  pose proof (randInt_bounds r_pick 0 (Z.of_nat (List.length specialties) - 1) Hp0 Hp1) as Hpick.
  simpl List.length in *. 
  destruct (arr_get_in_range specialties (randInt r_pick 0 (Z.of_nat 5 - 1))) as [pick [Hget Hin]].
  { simpl List.length. lia. }
  rewrite Hget. eexists. split; [reflexivity|]. simpl.
  split; [reflexivity|].
  split; [destruct pick; exact Hin|].
  split.
  { simpl in Hin.
    destruct Hin as [<-|[<-|[<-|[<-|[<-|[]]]]]]; simpl;
      [exists Plumber|exists Electrician|exists Painter|exists Driver|exists General];
      reflexivity. }
  split.
  { assert (Hround : 40 <= Math_round ((4 + r_rating) * 10) <= 50).
    { unfold Math_round.
      assert (H40 : (inject_Z 40 <= (4 + r_rating) * 10 + (1 # 2))%Q).
      { unfold Qle in *. simpl in *. nia. }
      assert (H51 : ((4 + r_rating) * 10 + (1 # 2) < inject_Z 51)%Q).
      { unfold Qlt in *. simpl in *. nia. }
      split.
      - rewrite <- (Qfloor_Z 40). apply Qfloor_resp_le. exact H40.
      - assert (Qfloor ((4 + r_rating) * 10 + (1 # 2)) < 51); [|lia].
        rewrite Zlt_Qlt. apply Qle_lt_trans with ((4 + r_rating) * 10 + (1 # 2))%Q;
          [apply Qfloor_le|exact H51]. }
    unfold Qle, Qdiv. simpl. lia. }
  split; [apply randInt_bounds; [assumption|assumption|lia]|].
  split; [|reflexivity].
  pose proof (randInt_bounds r_rate 30 90 Hh0 Hh1) as Hrate.
  unfold Qle. simpl. lia.
Qed.

Lemma seedWorkerProfile_ranges_witness :
  exists w,
    seedWorkerProfile "u1234567" (1 # 2) (37 # 100) 0 (999 # 1000) = Some w /\
    w_id w = "u1234567" /\
    In (specialty w, skills w) specialties /\
    (exists c, specialty w = cat_name c) /\
    (4 <= rating w <= 5)%Q /\
    5 <= jobsCompleted w <= 120 /\
    (30 <= hourlyRate w <= 90)%Q /\
    available w = true.
Proof.
  apply (seedWorkerProfile_ranges "u1234567" (1 # 2) (37 # 100) 0 (999 # 1000));
    split; (discriminate || reflexivity).
Defined.

Example seedWorkerProfile_sample :
  option_map (fun w => (w_name w, specialty w, jobsCompleted w))
    (seedWorkerProfile "u1234567" (1 # 2) (37 # 100) 0 (999 # 1000))
  = Some ("Worker u12345", "Painter", 5).
Proof. reflexivity. Qed.

(** ** The own profile and the roster entry *)

(** X27. A worker's own profile and the roster entry built from a
    document with the same fields agree whenever the document has a rating;
    when it has none they differ in the rating only, 4.7 on the profile and
    4.5 in the roster.  A document whose role is not ['Worker'] loads as a
    customer, a missing document as no profile. *)
Theorem loadUserProfile_vs_roster (uid : string) (d : WorkerDoc) :
  (forall r, d_rating d = Some r ->
             loadUserProfile uid (Some (mkProfileDoc (Some "Worker") d))
             = Some (AsWorker (workerOfDoc (uid, d)))) /\
  (d_rating d = None ->
   loadUserProfile uid (Some (mkProfileDoc (Some "Worker") d))
   = Some (AsWorker (worker_with_rating (47 # 10) (workerOfDoc (uid, d)))) /\
   rating (workerOfDoc (uid, d)) = 45 # 10) /\
  (forall role, role <> Some "Worker" ->
                exists c, loadUserProfile uid (Some (mkProfileDoc role d)) = Some (AsCustomer c)
                          /\ c_id c = uid) /\
  loadUserProfile uid None = None.
Proof.
  split; [|split; [|split]].
  - intros r Hr. simpl. rewrite Hr. reflexivity.
  - intros Hr. simpl. rewrite Hr. split; reflexivity.
  - intros role Hrole. unfold loadUserProfile. simpl.
    destruct role as [r|].
    + destruct (String.eqb_spec r "Worker") as [->|Hne]; [congruence|].
      eexists. split; reflexivity.
    + eexists. split; reflexivity.
  - reflexivity.
Qed.

Lemma loadUserProfile_vs_roster_witness :
  loadUserProfile "w3" (Some (mkProfileDoc (Some "Worker") sample_doc))
  = Some (AsWorker (workerOfDoc ("w3", sample_doc))).
Proof.
  exact (proj1 (loadUserProfile_vs_roster "w3" sample_doc) (48 # 10) eq_refl).
Defined.

(** ** Further instances *)

Lemma detectCategory_maximal_witness :
  0 < keywordScore (Js.toLowerCase "My kitchen sink is leaking badly")
        (CATEGORY_BY_ID (detectCategory "My kitchen sink is leaking badly")).
Proof.
  apply (proj2 (detectCategory_maximal "My kitchen sink is leaking badly")).
  vm_compute. discriminate.
Defined.

Lemma status_op_rejected_witness :
  apply_op OpCancel 2 "j2" (service_with Pending) = None.
Proof.
  apply (proj2 (proj1 (status_op_rejected OpCancel 2 "j2" (service_with Pending)))).
  exists {[ "j1" := sample_job Pending ]}. split; reflexivity.
Defined.

Lemma classNames_falsy_witness :
  classNames [ClassStr "text-center"; ClassNull; ClassStr "p-4"]
  = classNames [ClassStr "text-center"; ClassStr "p-4"].
Proof.
  exact (proj1 classNames_falsy [ClassStr "text-center"] ClassNull [ClassStr "p-4"] eq_refl).
Defined.

(** ** Sorting in double precision *)

Section SortingDouble.

Context {A : Type} (cmp : A -> A -> float).

Let behind (a b : A) : bool := positive_double (cmp a b).

Lemma sort_insert_double_perm (x : A) (l : list A) :
  Permutation (sort_insert_double cmp x l) (x :: l).
Proof.
  induction l as [|y l IH]; simpl; [reflexivity|].
  destruct (positive_double (cmp x y)); [|reflexivity].
  rewrite IH. apply perm_swap.
Qed.

Lemma js_sort_double_perm (l : list A) : Permutation (js_sort_double cmp l) l.
Proof.
  induction l as [|x l IH]; simpl; [reflexivity|].
  rewrite sort_insert_double_perm. now constructor.
Qed.

Lemma consistent_asym (l : list A) (a b : A) :
  consistent cmp l = true -> In a l -> In b l ->
  behind a b = true -> behind b a = false.
Proof.
  unfold consistent, behind. intros H Ha Hb Hab.
  rewrite forallb_forall in H. specialize (H a Ha).
  rewrite forallb_forall in H. specialize (H b Hb).
  apply andb_prop in H. destruct H as [H _].
  rewrite Hab in H. simpl in H. now apply negb_true_iff in H.
Qed.

Lemma consistent_trans (l : list A) (a b c : A) :
  consistent cmp l = true -> In a l -> In b l -> In c l ->
  behind a b = false -> behind b c = false -> behind a c = false.
Proof.
  unfold consistent, behind. intros H Ha Hb Hc Hab Hbc.
  rewrite forallb_forall in H. specialize (H a Ha).
  rewrite forallb_forall in H. specialize (H b Hb).
  apply andb_prop in H. destruct H as [_ H].
  rewrite forallb_forall in H. specialize (H c Hc).
  rewrite Hab, Hbc in H. simpl in H. now apply negb_true_iff in H.
Qed.

Lemma sort_insert_double_sorted (l0 : list A) (x : A) (l : list A) :
  consistent cmp l0 = true -> incl (x :: l) l0 ->
  StronglySorted (fun a b => behind a b = false) l ->
  StronglySorted (fun a b => behind a b = false) (sort_insert_double cmp x l).
Proof.
  intros Hc Hincl Hs. induction Hs as [|y l Hl IH Hy]; simpl.
  - constructor; constructor.
  - assert (Hx : In x l0) by (apply Hincl; left; reflexivity).
    assert (Hy0 : In y l0) by (apply Hincl; right; left; reflexivity).
    destruct (positive_double (cmp x y)) eqn:E.
    + constructor.
      * apply IH. intros z [<-|Hz]; apply Hincl; [left|right; right]; auto.
      * rewrite Forall_forall. intros z Hz.
        apply (Permutation_in _ (sort_insert_double_perm x l)) in Hz.
        destruct Hz as [<-|Hz].
        -- apply (consistent_asym l0); assumption.
        -- rewrite Forall_forall in Hy. apply Hy. exact Hz.
    + constructor; [constructor; assumption|].
      constructor; [exact E|].
      rewrite Forall_forall in Hy |- *. intros z Hz.
      apply (consistent_trans l0 x y z); auto.
      apply Hincl. right. right. exact Hz.
Qed.

Lemma js_sort_double_sorted_incl (l0 l : list A) :
  consistent cmp l0 = true -> incl l l0 ->
  StronglySorted (fun a b => behind a b = false) (js_sort_double cmp l).
Proof.
  intros Hc. induction l as [|x l IH]; intros Hincl; simpl; [constructor|].
  apply (sort_insert_double_sorted l0); [exact Hc| |].
  - intros z [<-|Hz]; [apply Hincl; left; reflexivity|].
    apply Hincl. right.
    apply (Permutation_in _ (js_sort_double_perm l)). exact Hz.
  - apply IH. intros z Hz. apply Hincl. right. exact Hz.
Qed.

Lemma js_sort_double_sorted (l : list A) :
  consistent cmp l = true ->
  StronglySorted (fun a b => behind a b = false) (js_sort_double cmp l).
Proof.
  intros Hc. apply (js_sort_double_sorted_incl l); [exact Hc|]. intros z Hz. exact Hz.
Qed.

(** In a sorted list an element the comparator sends behind another
    stands after it. *)
Lemma sorted_double_nth_lt (l : list A) (i j : nat) (a b : A) :
  StronglySorted (fun a b => behind a b = false) l ->
  nth_error l i = Some a -> nth_error l j = Some b ->
  behind a b = true -> i <> j -> (j < i)%nat.
Proof.
  intros H. revert i j.
  induction H as [|y l Hl IH Hy]; intros i j Hi Hj Hab Hne.
  - destruct i; discriminate.
  - rewrite Forall_forall in Hy.
    destruct i as [|i], j as [|j]; simpl in *.
    + congruence.
    + injection Hi as <-. apply nth_error_In in Hj. apply Hy in Hj. congruence.
    + lia.
    + assert (Hij : i <> j) by congruence.
      specialize (IH i j Hi Hj Hab Hij). lia.
Qed.

(** A list the comparator has nothing to move in is left as it is. *)
Lemma js_sort_double_id (l : list A) :
  StronglySorted (fun a b => behind a b = false) l -> js_sort_double cmp l = l.
Proof.
  induction 1 as [|x l Hl IH Hx]; simpl; [reflexivity|].
  rewrite IH. destruct l as [|y l']; [reflexivity|]. simpl.
  rewrite Forall_forall in Hx. specialize (Hx y (or_introl eq_refl)).
  unfold behind in Hx. rewrite Hx. reflexivity.
Qed.

End SortingDouble.

(** ** The ranker in double precision *)

Lemma rankWorkers_double_unfold (ws : list WorkerProfile) (s : ChatState) :
  rankWorkers_double ws s
  = map swd (firstn 3 (js_sort_double byScoreDesc_double (map (scoredOf_double s) ws))).
Proof. reflexivity. Qed.

Lemma swd_scoredOf_double (s : ChatState) (ws : list WorkerProfile) :
  map swd (map (scoredOf_double s) ws) = ws.
Proof. rewrite map_map. simpl. apply map_id. Qed.

Lemma rankerScore_double_sum (s : ChatState) (w : WorkerProfile) :
  rankerScore_double s w
  = score_double (skillMatchOf (rankKeywords s) w)
                 (String.eqb (specialty w) (cat_name (category s)))
                 (rating w) (available w).
Proof.
  unfold rankerScore_double, scoreWorker_double, score_double.
  destruct (String.eqb (specialty w) (cat_name (category s))), (available w);
    reflexivity.
Qed.

Lemma skillMatchOf_range (kws : list string) (w : WorkerProfile) :
  0 <= skillMatchOf kws w <= Z.of_nat (List.length (skills w)).
Proof.
  rewrite skillMatchOf_spec. unfold spec_skillMatch.
  pose proof (filter_length_le (fun sk => Js.arr_includes kws (Js.toLowerCase sk))
                               (skills w)).
  lia.
Qed.

Lemma Zrange_In (lo z : Z) (n : nat) :
  lo <= z < lo + Z.of_nat n -> In z (Zrange lo n).
Proof.
  intros H. unfold Zrange. apply in_map_iff. exists (Z.to_nat (z - lo)). split.
  - lia.
  - apply in_seq. lia.
Qed.

Lemma separated_in_range (n : Z) (b : bool) (r : Q) :
  0 <= n <= 50 ->
  0 <= Qnum r <= 5 * Zpos (Qden r) ->
  Zpos (Qden r) <= 10 ->
  separated n b r = true.
Proof.
  intros Hn Hr Hd.
  assert (Hall : separated_everywhere = true) by (vm_compute; reflexivity).
  unfold separated_everywhere in Hall.
  rewrite forallb_forall in Hall.
  assert (Hn' : In n (Zrange 0 51)) by (apply Zrange_In; lia).
  assert (Hd' : In (Zpos (Qden r)) (Zrange 1 10)) by (apply Zrange_In; lia).
  assert (Hr' : In (Qnum r) (Zrange 0 (Z.to_nat (5 * Zpos (Qden r) + 1))))
    by (apply Zrange_In; lia).
  specialize (Hall n Hn').
  rewrite forallb_forall in Hall. specialize (Hall (Zpos (Qden r)) Hd').
  rewrite forallb_forall in Hall. specialize (Hall (Qnum r) Hr').
  assert (Hq : Qnum r # Z.to_pos (Zpos (Qden r)) = r) by (destruct r; reflexivity).
  rewrite Hq in Hall. apply andb_prop in Hall. destruct b; tauto.
Qed.

(** ** Availability *)




(** ** The ranker: rosters already in order *)

Lemma scoredOf_double_sorted (s : ChatState) (ws : list WorkerProfile) :
  StronglySorted (fun a b => after_double s a b = false) ws ->
  StronglySorted (fun a b => positive_double (byScoreDesc_double a b) = false)
                 (map (scoredOf_double s) ws).
Proof.
  induction 1 as [|w ws Hs IH Hw]; simpl; constructor; [exact IH|].
  rewrite Forall_forall in Hw |- *. intros x Hx.
  apply in_map_iff in Hx. destruct Hx as [v [<- Hv]]. exact (Hw v Hv).
Qed.



(** The two workers whose exact scores are equal are not tied in double
    precision: [3 * 1.2] is 3.5999999999999996 and [3 + 0.5 * 1.2] is 3.6,
    so the ranker puts the second before the first. *)
Example rankWorkers_rounding_breaks_tie :
  (rankerScore sample_state rated_three == rankerScore sample_state half_with_skill)%Q /\
  rankerScore_double sample_state rated_three = 0x1.cccccccccccccp+1%float /\
  rankerScore_double sample_state half_with_skill = 0x1.ccccccccccccdp+1%float /\
  rankWorkers_double [rated_three; half_with_skill] sample_state
  = [half_with_skill; rated_three] /\
  rankWorkers [rated_three; half_with_skill] sample_state
  = [rated_three; half_with_skill].
Proof. repeat split; vm_compute; reflexivity. Qed.
